(** * ApprovalGuard: the approval scan, the spender resolver, the risk score
      and the revocation calldata of [server.js], embedded in Rocq.

    The definitions follow [server.js] function by function and keep its
    names.  JavaScript values are modelled only as far as the program uses
    them: property lookup on an object literal (own properties first, then
    [Object.prototype]), truthiness, [||], [+] and [Math.min]. *)

From Stdlib Require Import ZArith Ascii String.
From stdpp Require Import base list strings gmap pretty.

Local Open Scope Z_scope.

(** ** JavaScript values used by the scoring code *)

Module Js.

(** The values that [calculateRiskScore] stores in [riskScore] and in the
    [contribution] fields. *)
Inductive Val : Type :=
| Num (n : Z)            (* a Number holding the integer n *)
| NaN
| Undefined
| Builtin (k : string)   (* the member of Object.prototype named k: a
                            built-in function, or Object.prototype itself
                            for __proto__ *)
| Text.                  (* a String holding the source text of a built-in
                            next to decimal digits; its characters are
                            implementation-defined and it is never a
                            numeric literal *)

Global Instance Val_eq_dec : EqDecision Val.
Proof. solve_decision. Defined.

(** The property names every ordinary object inherits from
    [Object.prototype]. *)
Definition ObjectPrototype : list string :=
  [ "constructor"; "__proto__"; "hasOwnProperty"; "isPrototypeOf";
    "propertyIsEnumerable"; "toLocaleString"; "toString"; "valueOf";
    "__defineGetter__"; "__defineSetter__";
    "__lookupGetter__"; "__lookupSetter__" ].

(** [obj[k]] for an object whose own properties are [own]. *)
Inductive Lookup (A : Type) : Type :=
| Own (a : A)
| Inherited (k : string)
| Missing.
Global Arguments Own {A} a.
Global Arguments Inherited {A} k.
Global Arguments Missing {A}.

Definition get {A} (own : gmap string A) (k : string) : Lookup A :=
  match own !! k with
  | Some a => Own a
  | None => if bool_decide (k ∈ ObjectPrototype) then Inherited k else Missing
  end.

(** [obj[k]] for an object literal whose own properties are numbers. *)
Definition get_num (own : gmap string Z) (k : string) : Val :=
  match get own k with
  | Own n => Num n
  | Inherited k' => Builtin k'
  | Missing => Undefined
  end.

(** ToBoolean. *)
Definition truthy (v : Val) : bool :=
  match v with
  | Num n => negb (n =? 0)
  | NaN | Undefined => false
  | Builtin _ | Text => true
  end.

(** [a || b]. *)
Definition or (a b : Val) : Val := if truthy a then a else b.

(** [a + b]: numeric addition on two numbers; as soon as one operand is
    an object or a string, both are converted to strings and
    concatenated. *)
Definition add (a b : Val) : Val :=
  match a, b with
  | Num x, Num y => Num (x + y)
  | Builtin _, _ | _, Builtin _ | Text, _ | _, Text => Text
  | _, _ => NaN
  end.

(** ToNumber, then the smaller one; NaN as soon as one operand is NaN. *)
Definition to_number (v : Val) : option Z :=
  match v with
  | Num n => Some n
  | _ => None
  end.

Definition Math_min (a b : Val) : Val :=
  match to_number a, to_number b with
  | Some x, Some y => Num (Z.min x y)
  | _, _ => NaN
  end.

End Js.

(** ** Data model *)

(** One entry of [contract_database.json]. *)
Record Contract : Type := mkContract {
  c_address : string;
  c_name : string;
  c_description : string;
  c_verified : bool;
  c_riskLevel : string;
  c_category : string;
  c_risks : list string;
  c_benefits : list string;
  c_documentation : string;
  c_audited : bool
}.

(** One entry of [exploit_database.json]. *)
Record Exploit : Type := mkExploit {
  e_name : string;
  e_date : string;
  affectedContracts : list string
}.

(** The object returned by [getSpenderDetails].  [riskLevel] and [category]
    are only ever used as property keys and echoed back, so they are kept
    as the strings they convert to; [isVerified] and [audited] are only
    tested for truthiness. *)
Record SpenderDetails : Type := mkSpenderDetails {
  name : string;
  description : string;
  isVerified : bool;
  riskLevel : string;
  category : string;
  risks : list string;
  benefits : list string;
  documentation : string;
  audited : bool
}.

Record RiskFactor : Type := mkRiskFactor {
  f_name : string;
  f_value : string;
  contribution : Js.Val
}.

Record RiskScoring : Type := mkRiskScoring {
  score : Js.Val;
  factors : list RiskFactor
}.

(** ** calculateRiskScore (server.js, lines 225-299) *)

Definition categoryRiskMap : gmap string Z :=
  list_to_map
    [ ("DEX", 4); ("Lending", 12); ("Staking", 8); ("Bridge", 15);
      ("NFT", 20); ("Other", 20); ("Unknown", 25) ].

Definition riskLevelMap : gmap string Z :=
  list_to_map [ ("low", 0); ("medium", 10); ("high", 20); ("unknown", 15) ].

Definition maxUint256 : Z := 2 ^ 256 - 1.

(** Factor 1: the branch taken and the points it adds. *)
Definition auditFactor (d : SpenderDetails) : RiskFactor :=
  if audited d then mkRiskFactor "Audit Status" "Audited" (Js.Num 0)
  else if isVerified d then mkRiskFactor "Audit Status" "Verified" (Js.Num 12)
  else mkRiskFactor "Audit Status" "Not Audited" (Js.Num 25).

(** Factor 2: [categoryRiskMap[spenderDetails.category] || 20]. *)
Definition categoryRisk (d : SpenderDetails) : Js.Val :=
  Js.or (Js.get_num categoryRiskMap (category d)) (Js.Num 20).

(** Factor 3: [riskLevelMap[spenderDetails.riskLevel] || 15]. *)
Definition riskLevelScore (d : SpenderDetails) : Js.Val :=
  Js.or (Js.get_num riskLevelMap (riskLevel d)) (Js.Num 15).

(** Factor 4.  The caller passes [allowance.toString()] and
    [balance.toString()] of two bigints, and the function converts them back
    with [BigInt]; the two arguments are therefore the integers
    themselves. *)
Definition allowanceFactor (allowance userBalance : Z) : RiskFactor :=
  if allowance =? maxUint256 then
    mkRiskFactor "Allowance" "Unlimited" (Js.Num 20)
  else if allowance >? userBalance * 10 then
    mkRiskFactor "Allowance" "Very High (>10x balance)" (Js.Num 15)
  else if allowance >? userBalance then
    mkRiskFactor "Allowance" "High (>balance)" (Js.Num 10)
  else
    mkRiskFactor "Allowance" "Reasonable" (Js.Num 5).

(** Factor 5.  In the branch without exploits nothing is added to
    [riskScore]; the factor records 0. *)
Definition exploitFactor (exploits : list Exploit) : RiskFactor :=
  if (0 <? length exploits)%nat then
    mkRiskFactor "Known Exploits"
      (pretty (length exploits) +:+ " exploit(s) found") (Js.Num 15)
  else
    mkRiskFactor "Known Exploits" "None" (Js.Num 0).

Definition calculateRiskScore (spenderDetails : SpenderDetails)
    (allowance userBalance : Z) (exploits : list Exploit) : RiskScoring :=
  let riskScore := Js.Num 0 in
  let f1 := auditFactor spenderDetails in
  let riskScore := Js.add riskScore (contribution f1) in
  let f2 := mkRiskFactor "Category" (category spenderDetails)
              (categoryRisk spenderDetails) in
  let riskScore := Js.add riskScore (contribution f2) in
  let f3 := mkRiskFactor "Risk Level" (riskLevel spenderDetails)
              (riskLevelScore spenderDetails) in
  let riskScore := Js.add riskScore (contribution f3) in
  let f4 := allowanceFactor allowance userBalance in
  let riskScore := Js.add riskScore (contribution f4) in
  let f5 := exploitFactor exploits in
  let riskScore :=
    if (0 <? length exploits)%nat
    then Js.add riskScore (contribution f5) else riskScore in
  let riskScore := Js.Math_min riskScore (Js.Num 100) in
  {| score := riskScore; factors := [f1; f2; f3; f4; f5] |}.

(** The five point contributions, in order. *)
Definition contributions (r : RiskScoring) : list Js.Val :=
  contribution <$> factors r.

(** A profile with the three fields the scenarios of the specification
    fix; the other fields do not enter the score. *)
Definition profile (aud ver : bool) (cat lvl : string) : SpenderDetails :=
  {| name := ""; description := ""; isVerified := ver; riskLevel := lvl;
     category := cat; risks := []; benefits := []; documentation := "";
     audited := aud |}.


(** ** String primitives *)

(** The program's strings that matter here (addresses, hexadecimal data,
    contract names) are ASCII; a string is its list of characters. *)

Definition lower_ascii (c : ascii) : ascii :=
  let n := N_of_ascii c in
  if ((65 <=? n) && (n <=? 90))%N then ascii_of_N (n + 32) else c.

(** [s.toLowerCase()]. *)
Fixpoint toLowerCase (s : string) : string :=
  match s with
  | EmptyString => EmptyString
  | String c s' => String (lower_ascii c) (toLowerCase s')
  end.

(** [s.includes(key)]. *)
Fixpoint includes (s key : string) : bool :=
  String.prefix key s ||
  match s with
  | EmptyString => false
  | String _ s' => includes s' key
  end.

(** [s.slice(n)] for [n >= 0]. *)
Fixpoint slice (n : nat) (s : string) : string :=
  match n, s with
  | O, _ => s
  | S n', String _ s' => slice n' s'
  | S _, EmptyString => EmptyString
  end.

Fixpoint repeat_char (c : ascii) (n : nat) : string :=
  match n with
  | O => EmptyString
  | S n' => String c (repeat_char c n')
  end.

(** [s.padStart(n, c)] for a one-character filler: nothing is added to a
    string that already has [n] characters or more. *)
Definition padStart (n : nat) (c : ascii) (s : string) : string :=
  repeat_char c (n - String.length s) +:+ s.

(** ** Addresses *)

Definition is_hex_digit (c : ascii) : bool :=
  let n := N_of_ascii c in
  (((48 <=? n) && (n <=? 57)) || ((97 <=? n) && (n <=? 102))
   || ((65 <=? n) && (n <=? 70)))%N.

Fixpoint all_hex (s : string) : bool :=
  match s with
  | EmptyString => true
  | String c s' => is_hex_digit c && all_hex s'
  end.

(** The text of an address as ethers hands it out (a log's [address], a
    decoded [address] argument): [0x] and 40 hexadecimal digits. *)
Definition is_address_literal (s : string) : bool :=
  match s with
  | String "0" (String "x" h) => (String.length h =? 40)%nat && all_hex h
  | _ => false
  end.

Definition Address : Type := { s : string | is_address_literal s }.

Definition text (a : Address) : string := `a.

(** The bytes that hexadecimal text denotes, two digits a byte. *)
Definition hex_value (c : ascii) : option N :=
  let n := N_of_ascii c in
  if ((48 <=? n) && (n <=? 57))%N then Some (n - 48)%N
  else if ((97 <=? n) && (n <=? 102))%N then Some (n - 87)%N
  else if ((65 <=? n) && (n <=? 70))%N then Some (n - 55)%N
  else None.

Fixpoint decode_hex (s : string) : option (list N) :=
  match s with
  | EmptyString => Some []
  | String _ EmptyString => None
  | String c1 (String c2 rest) =>
      match hex_value c1, hex_value c2, decode_hex rest with
      | Some hi, Some lo, Some bytes => Some ((16 * hi + lo)%N :: bytes)
      | _, _, _ => None
      end
  end.

(** The 20 bytes of the account an address literal names, and the bytes of
    [0x]-prefixed data. *)
Definition bytes_of_0x (s : string) : option (list N) := decode_hex (slice 2 s).

(** ** The two registries and the explorer service *)

(** What [axios.get] on the explorer API gives back, as far as
    [getSpenderDetails] looks at it. *)
Inductive EtherscanReply : Type :=
| Rejected      (* the promise rejects: network error, non-2xx status *)
| NoBody        (* resolved, but response.data is undefined or null, so
                   reading its result property throws *)
| NoResult      (* response.data.result is falsy, or its element 0 is *)
| Result0 (ContractName SourceCode : option string).
                (* element 0 and its two fields; None is undefined.  When
                   result is a non-empty text, as in the error answers the
                   explorer sends with status 200, element 0 is its first
                   character and both fields are undefined *)

(** Truthiness of a string field that may be undefined. *)
Definition truthy_str (o : option string) : bool :=
  match o with
  | Some (String _ _) => true
  | _ => false
  end.

(** [o || d] for such a field. *)
Definition or_str (o : option string) (d : string) : string :=
  match o with
  | Some (String c s) => String c s
  | _ => d
  end.

(** ** getApprovalDescription (server.js, lines 371-393) *)

Definition descriptions : list (string * string) :=
  [ ("UniswapV3Router", "Can swap your tokens on Uniswap");
    ("UniswapV2Router", "Can swap your tokens on Uniswap");
    ("SwapRouter", "Can swap your tokens");
    ("Seaport", "Can transfer your NFTs and tokens for trading");
    ("CurveStableSwap", "Can use your tokens for swaps on Curve");
    ("LidoStETH", "Can stake your ETH for stETH");
    ("WETH9", "Can wrap/unwrap your ETH");
    ("MasterChef", "Can use your tokens in liquidity pools");
    ("AavePool", "Can use your tokens as collateral");
    ("CompoundComptroller", "Can use your tokens as collateral");
    ("MakerDAO", "Can use your tokens as collateral") ].

Fixpoint first_match (contractName : string) (entries : list (string * string))
    : option string :=
  match entries with
  | [] => None
  | (key, desc) :: rest =>
      if includes contractName key then Some desc
      else first_match contractName rest
  end.

Definition getApprovalDescription (contractName : string) : string :=
  default "This contract can transfer your tokens."
          (first_match contractName descriptions).

(** ** External calls *)

(** The calls that leave the process, recorded in the order the code
    issues them. *)
Inductive ExternalCall : Type :=
| RpcGetLogs (ownerTopic : string)
| RpcAllowance (token : Address) (owner : string) (spender : Address)
| RpcName (token : Address)
| RpcSymbol (token : Address)
| RpcDecimals (token : Address)
| RpcBalanceOf (token : Address) (owner : string)
| HttpGetSourceCode (address : Address).

(** A computation that issues external calls: the calls made, and the
    value.  Where the program runs promises side by side (the candidates of
    one scan, the four reads of one token), the list keeps the calls of
    each promise together, one promise after the other; the properties
    below only use which calls occur. *)
Definition Eff (A : Type) : Type := list ExternalCall * A.

Global Instance Eff_ret : MRet Eff := λ A a, ([], a).
Global Instance Eff_bind : MBind Eff := λ A B f m,
  let '(t1, a) := m in let '(t2, b) := f a in (t1 ++ t2, b).

Definition call (c : ExternalCall) : Eff unit := ([c], tt).
Definition calls_of {A} (m : Eff A) : list ExternalCall := m.1.
Definition value_of {A} (m : Eff A) : A := m.2.

(** How a [try] block ends. *)
Inductive Completion (A : Type) : Type :=
| Returned (a : A)
| Thrown
| FellThrough.
Global Arguments Returned {A} a.
Global Arguments Thrown {A}.
Global Arguments FellThrough {A}.

Section Resolver.

(** [contractDatabase] and [exploitDatabase] as they stand after start-up:
    keyed by lower-cased address. *)
Variable contractDatabase : gmap string Contract.
Variable exploitDatabase : gmap string (list Exploit).

(** The explorer's answer for an address. *)
Variable etherscan : Address → EtherscanReply.

(** *** checkForExploits (server.js, lines 304-307)

    The key is a lower-cased address literal; it starts with [0x], so the
    lookup never reaches [Object.prototype] (lemma
    [address_key_not_inherited]) and is a lookup among the own
    properties. *)
Definition checkForExploits (spenderAddress : Address) : list Exploit :=
  let normalizedAddress := toLowerCase (text spenderAddress) in
  default [] (exploitDatabase !! normalizedAddress).

(** *** getSpenderDetails (server.js, lines 309-369) *)

Definition defaultDetails (spenderAddress : Address) : SpenderDetails :=
  {| name := "Unknown Contract";
     description := "This contract can transfer your tokens.";
     isVerified := false;
     riskLevel := "high";
     category := "Unknown";
     risks := [ "Could be a scam or malicious contract";
                "No audit information available" ];
     benefits := [];
     documentation := "https://etherscan.io/address/" +:+ text spenderAddress;
     audited := false |}.

(** The body of the [try] block.  As in [checkForExploits], the registry is
    read under a lower-cased address literal, so the lookup is one among
    the own properties. *)
Definition getSpenderDetails_try (spenderAddress : Address)
    : Eff (Completion SpenderDetails) :=
  let normalizedAddress := toLowerCase (text spenderAddress) in
  match contractDatabase !! normalizedAddress with
  | Some dbContract =>
      mret (Returned
        {| name := c_name dbContract;
           description := c_description dbContract;
           isVerified := c_verified dbContract;
           riskLevel := c_riskLevel dbContract;
           category := c_category dbContract;
           risks := c_risks dbContract;
           benefits := c_benefits dbContract;
           documentation := c_documentation dbContract;
           audited := c_audited dbContract |})
  | None =>
      call (HttpGetSourceCode spenderAddress) ;;
      match etherscan spenderAddress with
      | Rejected | NoBody => mret Thrown
      | NoResult => mret FellThrough
      | Result0 ContractName SourceCode =>
          let name := or_str ContractName "Unknown Contract" in
          mret (Returned
            {| name := name;
               description := getApprovalDescription name;
               isVerified := truthy_str SourceCode;
               riskLevel := "unknown";
               category := "Other";
               risks := [ "Verify contract details before approving" ];
               benefits := [];
               documentation :=
                 "https://etherscan.io/address/" +:+ text spenderAddress;
               audited := false |})
      end
  end.

(** The [catch] clause only logs; after it, and after a [try] block that
    ends without returning, the function returns the default. *)
Definition getSpenderDetails (spenderAddress : Address) : Eff SpenderDetails :=
  c ← getSpenderDetails_try spenderAddress;
  match c with
  | Returned d => mret d
  | Thrown | FellThrough => mret (defaultDetails spenderAddress)
  end.

End Resolver.

(** ** The approval scan: app.post('/api/approvals') (server.js, lines 115-220) *)

(** A field of the parsed JSON request body. *)
Inductive Json : Type :=
| JAbsent                (* the body has no such field: undefined *)
| JNull
| JBool (b : bool)
| JNumber (n : Z)        (* a number whose value is the integer n *)
| JFraction              (* a number that is no integer *)
| JString (s : string)
| JArray
| JObject.

Definition truthy_json (v : Json) : bool :=
  match v with
  | JAbsent | JNull => false
  | JBool b => b
  | JNumber n => negb (n =? 0)
  | JString EmptyString => false
  | JFraction | JString _ | JArray | JObject => true
  end.

(** [v !== 1]. *)
Definition strict_ne_1 (v : Json) : bool :=
  match v with
  | JNumber n => negb (n =? 1)
  | _ => true
  end.

Record RequestBody : Type := mkRequestBody {
  walletAddress : Json;
  chainId : Json
}.

(** One log returned by [provider.getLogs]: the emitting contract, and the
    [spender] argument when [iface.parseLog] decodes the log as an ERC-20
    [Approval]; [None] when the decoding fails, which the loop skips. *)
Record Log : Type := mkLog {
  log_address : Address;
  parsed_spender : option Address
}.

(** A value of the [activeApprovals] map. *)
Record Approval : Type := mkApproval {
  tokenAddress : Address;
  spender : Address
}.

Global Instance Approval_eq_dec : EqDecision Approval.
Proof. solve_decision. Defined.

(** The template literal that builds the map key. *)
Definition approvalKey (tokenAddress spender : Address) : string :=
  text tokenAddress +:+ "-" +:+ text spender.

(** A JavaScript [Map] with string keys: the entries in insertion order.
    [set] on a key already present replaces the value where it stands. *)
Fixpoint Map_set {V} (k : string) (v : V) (m : list (string * V))
    : list (string * V) :=
  match m with
  | [] => [(k, v)]
  | (k', v') :: m' =>
      if decide (k' = k) then (k, v) :: m' else (k', v') :: Map_set k v m'
  end.

Definition Map_values {V} (m : list (string * V)) : list V := m.*2.
Definition Map_keys {V} (m : list (string * V)) : list string := m.*1.

(** One turn of the loop over the logs. *)
Definition recordLog (activeApprovals : list (string * Approval)) (log : Log)
    : list (string * Approval) :=
  match parsed_spender log with
  | Some spender =>
      let tokenAddress := log_address log in
      let key := approvalKey tokenAddress spender in
      Map_set key (mkApproval tokenAddress spender) activeApprovals
  | None => activeApprovals
  end.

Definition collectApprovals (logs : list Log) : list (string * Approval) :=
  foldl recordLog [] logs.

(** An element of the [approvals] array of the response. *)
Record ApprovalResult : Type := mkApprovalResult {
  r_tokenName : string;
  r_tokenSymbol : string;
  r_tokenAddress : string;
  r_spender : string;
  r_allowance : string;
  r_userBalance : string;
  r_decimals : Z;
  r_spenderName : string;
  r_spenderDescription : string;
  r_isVerified : bool;
  r_riskLevel : string;
  r_category : string;
  r_risks : list string;
  r_benefits : list string;
  r_documentation : string;
  r_audited : bool;
  r_riskScore : Js.Val;
  r_riskFactors : list RiskFactor;
  r_exploits : list Exploit;
  r_hasKnownExploit : bool
}.

(** The answer of the handler: [res.status(400).json({ error })], the
    status 500 of the outer [catch], whose text is the caught error's, or
    the successful body. *)
Inductive Response : Type :=
| Status400 (error : string)
| Status500
| Status200 (count : nat) (approvals : list ApprovalResult).

Section Scan.

Variable contractDatabase : gmap string Contract.
Variable exploitDatabase : gmap string (list Exploit).
Variable etherscan : Address → EtherscanReply.

(** ethers: [isAddress] on a string, [zeroPadValue(_, 32)] and
    [formatUnits]; [None] is a thrown exception ([formatUnits] refuses
    decimals it cannot represent). *)
Variable isAddress : string → bool.
Variable zeroPadValue32 : string → option string.
Variable formatUnits : Z → Z → option string.

(** The chain behind the JSON-RPC provider; [None] is a rejected
    promise. *)
Variable getLogs : string → option (list Log).
Variable allowance : Address → string → Address → option Z.
Variable token_name : Address → option string.
Variable token_symbol : Address → option string.
Variable token_decimals : Address → option Z.
Variable balanceOf : Address → string → option Z.

(** The first guard, [!walletAddress || !ethers.isAddress(walletAddress)],
    read as the owner it lets through.  [ethers.isAddress] answers false
    on anything but a string. *)
Definition validOwner (v : Json) : option string :=
  match v with
  | JString s =>
      if negb (truthy_json v) || negb (isAddress s) then None else Some s
  | _ => None
  end.

(** The async callback mapped over the candidates.  [None] stands for
    both values that [filter(Boolean)] removes: [undefined] (allowance not
    above zero) and [null] (the [catch] clause, reached from a rejected read
    and from [formatUnits] throwing while the result object is built, after
    the spender has been resolved). *)
Definition resolveApproval (walletAddress : string) (approval : Approval)
    : Eff (option ApprovalResult) :=
  let token := tokenAddress approval in
  call (RpcAllowance token walletAddress (spender approval)) ;;
  match allowance token walletAddress (spender approval) with
  | None => mret None
  | Some allowance =>
      if allowance >? 0 then
        call (RpcName token) ;; call (RpcSymbol token) ;;
        call (RpcDecimals token) ;; call (RpcBalanceOf token walletAddress) ;;
        match token_name token, token_symbol token,
              token_decimals token, balanceOf token walletAddress with
        | Some tokenName, Some symbol, Some decimals, Some balance =>
            spenderDetails ←
              getSpenderDetails contractDatabase etherscan (spender approval);
            let exploits := checkForExploits exploitDatabase (spender approval) in
            let riskScoring :=
              calculateRiskScore spenderDetails allowance balance exploits in
            match formatUnits allowance decimals,
                  formatUnits balance decimals with
            | Some formattedAllowance, Some formattedBalance =>
            mret (Some
              {| r_tokenName := tokenName;
                 r_tokenSymbol := symbol;
                 r_tokenAddress := text token;
                 r_spender := text (spender approval);
                 r_allowance := formattedAllowance;
                 r_userBalance := formattedBalance;
                 r_decimals := decimals;
                 r_spenderName := name spenderDetails;
                 r_spenderDescription := description spenderDetails;
                 r_isVerified := isVerified spenderDetails;
                 r_riskLevel := riskLevel spenderDetails;
                 r_category := category spenderDetails;
                 r_risks := risks spenderDetails;
                 r_benefits := benefits spenderDetails;
                 r_documentation := documentation spenderDetails;
                 r_audited := audited spenderDetails;
                 r_riskScore := score riskScoring;
                 r_riskFactors := factors riskScoring;
                 r_exploits := exploits;
                 r_hasKnownExploit := (0 <? length exploits)%nat |})
            | _, _ => mret None
            end
        | _, _, _, _ => mret None
        end
      else mret None
  end.

(** [Promise.all] keeps the order of the array it is given. *)
Definition approvals_handler (body : RequestBody) : Eff Response :=
  match validOwner (walletAddress body) with
  | None => mret (Status400 "Invalid Ethereum address")
  | Some owner =>
      if truthy_json (chainId body) && strict_ne_1 (chainId body) then
        mret (Status400 "Currently only Ethereum mainnet is supported")
      else
        match zeroPadValue32 owner with
        | None => mret Status500
        | Some addressTopic =>
            call (RpcGetLogs addressTopic) ;;
            match getLogs addressTopic with
            | None => mret Status500
            | Some logs =>
                let activeApprovals := collectApprovals logs in
                settled ← mapM (resolveApproval owner)
                               (Map_values activeApprovals);
                let detailedApprovals := omap id settled in
                mret (Status200 (length detailedApprovals) detailedApprovals)
            end
        end
  end.

End Scan.

(** ** revokeApproval (the page script inside server.js, lines 1302-1339) *)

Record Transaction : Type := mkTransaction {
  tx_from : string;
  tx_to : string;
  tx_data : string
}.

(** The calldata expression of lines 1316-1318. *)
Definition revokeData (spenderAddress : string) : string :=
  "0x095ea7b3" +:+ padStart 64 "0" (slice 2 spenderAddress)
               +:+ padStart 64 "0" "0".

(** What a run of [revokeApproval] does: the messages it shows, and the
    [eth_sendTransaction] request it hands to the wallet, if any.  The
    refresh it schedules after a sent transaction is left out. *)
Record RevokeRun : Type := mkRevokeRun {
  shown : list (string * string);
  request : option Transaction
}.

Section Page.

(** The page's [connectedAddress]: [None] until a wallet is connected. *)
Variable connectedAddress : option string.

(** [window.ethereum.request]: a transaction hash, or the message of the
    error it rejects with. *)
Variable ethereum_request : Transaction → string + string.

Definition revokeApproval (tokenAddress spenderAddress walletAddress : string)
    : RevokeRun :=
  match connectedAddress with
  | None | Some EmptyString =>
      {| shown := [("Please connect your wallet first", "error")];
         request := None |}
  | Some connected =>
      if negb (String.eqb (toLowerCase connected) (toLowerCase walletAddress))
      then
        {| shown := [("Connected wallet does not match the approval owner",
                      "error")];
           request := None |}
      else
        let data := revokeData spenderAddress in
        let tx := {| tx_from := connected; tx_to := tokenAddress;
                     tx_data := data |} in
        {| shown :=
             [ ("Preparing revoke transaction...", "success");
               match ethereum_request tx with
               | inl hash =>
                   ("Transaction sent: " +:+ String.substring 0 10 hash
                      +:+ "...", "success")
               | inr message => ("Error: " +:+ message, "error")
               end ];
           request := Some tx |}
  end.

End Page.

(** ** Auxiliary definitions for the statements *)

(** [categoryRiskMap] with its fallback 20, read as a function of the key. *)
Definition categoryPoints (k : string) : Z :=
  if decide (k = "DEX") then 4
  else if decide (k = "Staking") then 8
  else if decide (k = "Lending") then 12
  else if decide (k = "Bridge") then 15
  else if decide (k = "Unknown") then 25
  else 20.

(** What [riskLevelMap[k] || 15] is on the keys where it is a number: the
    entry 0 of low is falsy and gives way to 15. *)
Definition riskLevelPoints (k : string) : Z :=
  if decide (k = "medium") then 10
  else if decide (k = "high") then 20
  else 15.

(** The lower-case digit of a value below 16. *)
Definition hex_digit_of (v : N) : ascii :=
  if (v <? 10)%N then ascii_of_N (v + 48) else ascii_of_N (v + 87).

(** Every entry sits under the key built from its own two addresses. *)
Definition keyed (m : list (string * Approval)) : Prop :=
  ∀ k c, (k, c) ∈ m → k = approvalKey (tokenAddress c) (spender c).

(** The request is answered with status 400 and no external call was
    made. *)
Definition rejectedBeforeAnyCall (m : Eff Response) : Prop :=
  calls_of m = [] ∧ ∃ error, value_of m = Status400 error.

(** The specification's second request fault, in its words: the request
    selects a chain, and it is not the supported one (chain id 1). *)
Definition otherChainSelected (v : Json) : Prop :=
  ∃ n, v = JNumber n ∧ n ≠ 1.

(** Three address literals, and a small chain, for examples. *)
Definition addressA : Address :=
  exist _ "0xAAAAAAAAAAAAAAAAAAAAAAAAAAAAAAAAAAAAAAAA" I.
Definition addressB : Address :=
  exist _ "0xBbBbBbBbBbBbBbBbBbBbBbBbBbBbBbBbBbBbBbBb" I.
Definition addressC : Address :=
  exist _ "0x1111111254EEB25477B68fb85Ed929f73A960582" I.

(** A small chain for examples: token A was approved for the spenders B
    and C; the allowance of B is back to 0, that of C is 5. *)
Definition sampleOwner : string := "0x00000000000000000000000000000000000000f1".

Definition sampleWorld (body : RequestBody) : Eff Response :=
  approvals_handler ∅ ∅ (λ _, Rejected)
    is_address_literal
    (λ s, Some ("0x" +:+ padStart 64 "0" (slice 2 s)))
    (λ v _, Some (pretty v))
    (λ _, Some [ mkLog addressA (Some addressB); mkLog addressA (Some addressC) ])
    (λ _ _ spender,
       if String.eqb (text spender) (text addressB) then Some 0 else Some 5)
    (λ _, Some "Token") (λ _, Some "TKN") (λ _, Some 18) (λ _ _, Some 100)
    body.

Definition sampleApprovals : list ApprovalResult :=
  match value_of (sampleWorld (mkRequestBody (JString sampleOwner) JAbsent)) with
  | Status200 _ approvals => approvals
  | _ => []
  end.

(** ** Start-up: loading the two registries (server.js, lines 34-76) *)

(** [contractDatabase[contract.address.toLowerCase()] = contract].  An
    assignment under any key creates or overwrites an own property, except
    under [__proto__], where it runs the inherited setter and leaves the
    own properties as they are. *)
Definition registerContract (contractDatabase : gmap string Contract)
    (contract : Contract) : gmap string Contract :=
  let key := toLowerCase (c_address contract) in
  if decide (key = "__proto__") then contractDatabase
  else <[key := contract]> contractDatabase.

(** [db.contracts.forEach(...)] on the empty object. *)
Definition loadContracts (contracts : list Contract) : gmap string Contract :=
  foldl registerContract ∅ contracts.

(** The body of the inner [forEach]: [None] is the TypeError of calling
    [push] on an inherited member, which is truthy and is no array. *)
Definition registerExploit (exploit : Exploit)
    (exploitDatabase : gmap string (list Exploit)) (contract : string)
    : option (gmap string (list Exploit)) :=
  let key := toLowerCase contract in
  match Js.get exploitDatabase key with
  | Js.Own listed => Some (<[key := listed ++ [exploit]]> exploitDatabase)
  | Js.Missing => Some (<[key := [exploit]]> exploitDatabase)
  | Js.Inherited _ => None
  end.

(** The two nested [forEach] loops.  They run inside one [try]: the first
    exception ends the loading, and the object keeps what was stored up to
    then.  The boolean tells whether the loops ran to their end. *)
Fixpoint forEachContract (exploit : Exploit) (contracts : list string)
    (exploitDatabase : gmap string (list Exploit))
    : gmap string (list Exploit) * bool :=
  match contracts with
  | [] => (exploitDatabase, true)
  | contract :: rest =>
      match registerExploit exploit exploitDatabase contract with
      | Some stored => forEachContract exploit rest stored
      | None => (exploitDatabase, false)
      end
  end.

Fixpoint forEachExploit (exploits : list Exploit)
    (exploitDatabase : gmap string (list Exploit))
    : gmap string (list Exploit) * bool :=
  match exploits with
  | [] => (exploitDatabase, true)
  | exploit :: rest =>
      match forEachContract exploit (affectedContracts exploit) exploitDatabase with
      | (stored, true) => forEachExploit rest stored
      | (stored, false) => (stored, false)
      end
  end.

Definition loadExploits (exploits : list Exploit) : gmap string (list Exploit) :=
  (forEachExploit exploits ∅).1.

(** ** The page: how one approval is displayed (server.js, lines 1162-1290) *)

(** [riskBadgeClass]. *)
Definition riskBadgeClass (riskLevel : string) : string :=
  if decide (riskLevel = "low") then "low-risk"
  else if decide (riskLevel = "medium") then "medium-risk"
  else "high-risk".

(** [riskScoreColor].  The score arrives through JSON: a number as it is,
    NaN as null; [null >= 60] and [null >= 40] are false. *)
Definition riskScoreColor (riskScore : Js.Val) : string :=
  match riskScore with
  | Js.Num n =>
      if 60 <=? n then "#FF5722"
      else if 40 <=? n then "#FF9800"
      else "#4CAF50"
  | _ => "#4CAF50"
  end.

(** The table of maxima inside the factor list, with its fallback:
    [{...}[factor.name] || 20]. *)
Definition maxPointsMap : gmap string Z :=
  list_to_map
    [ ("Audit Status", 25); ("Category Risk", 20); ("Risk Level", 20);
      ("Allowance Amount", 20); ("Known Exploits", 15) ].

Definition maxPoints (factorName : string) : Js.Val :=
  Js.or (Js.get_num maxPointsMap factorName) (Js.Num 20).

(** The [disabled] attribute of the revoke button (line 1284): absent only
    when a wallet is connected whose address is the scanned one up to
    letter case. *)
Definition revokeButtonDisabled (connectedAddress : option string)
    (address : string) : bool :=
  match connectedAddress with
  | None | Some EmptyString => true
  | Some connected =>
      negb (String.eqb (toLowerCase connected) (toLowerCase address))
  end.

(** ** Further auxiliary definitions for the statements *)

(** [key] occurs in [s]. *)
Definition occurs (key s : string) : Prop :=
  ∃ before after, s = before +:+ key +:+ after.

(** The exploits that list the lower-cased address [key], in file order,
    once for each mention. *)
Definition listing (key : string) (exploits : list Exploit) : list Exploit :=
  exploit ← exploits;
  contract ← affectedContracts exploit;
  if decide (toLowerCase contract = key) then [exploit] else [].

(** The mentions of the lower-cased address [key] among the affected
    contracts of one exploit. *)
Definition mentions (key : string) (exploit : Exploit) (contracts : list string)
    : list Exploit :=
  contract ← contracts;
  if decide (toLowerCase contract = key) then [exploit] else [].

(** The object holds, under each key, the non-empty list [L key], and has
    no own property where [L key] is empty. *)
Definition represents (exploitDatabase : gmap string (list Exploit))
    (L : string → list Exploit) : Prop :=
  ∀ key, exploitDatabase !! key
         = if decide (L key = []) then None else Some (L key).

(** No affected contract of the file is, lower-cased, the name of an
    [Object.prototype] member. *)
Definition plainContracts (exploits : list Exploit) : Prop :=
  ∀ exploit contract, exploit ∈ exploits →
    contract ∈ affectedContracts exploit →
    toLowerCase contract ∉ Js.ObjectPrototype.

(** The profile built from a registry entry. *)
Definition detailsOf (c : Contract) : SpenderDetails :=
  {| name := c_name c; description := c_description c;
     isVerified := c_verified c; riskLevel := c_riskLevel c;
     category := c_category c; risks := c_risks c;
     benefits := c_benefits c; documentation := c_documentation c;
     audited := c_audited c |}.

(** The last element of a list that satisfies a test. *)
Definition last_such {A} (P : A → bool) (l : list A) : option A :=
  last (filter (λ x, P x = true) l).

(** The candidate has an allowance above zero and its four token reads
    succeed. *)
Definition readable
    (allowance : Address → string → Address → option Z)
    (token_name token_symbol : Address → option string)
    (token_decimals : Address → option Z)
    (balanceOf : Address → string → option Z)
    (owner : string) (c : Approval) : bool :=
  match allowance (tokenAddress c) owner (spender c) with
  | Some a =>
      (a >? 0) && bool_decide (is_Some (token_name (tokenAddress c)))
      && bool_decide (is_Some (token_symbol (tokenAddress c)))
      && bool_decide (is_Some (token_decimals (tokenAddress c)))
      && bool_decide (is_Some (balanceOf (tokenAddress c) owner))
  | None => false
  end.

(** The candidate is readable, and its allowance and the owner's balance
    can both be formatted with the token's decimals. *)
Definition resolvable
    (formatUnits : Z → Z → option string)
    (allowance : Address → string → Address → option Z)
    (token_name token_symbol : Address → option string)
    (token_decimals : Address → option Z)
    (balanceOf : Address → string → option Z)
    (owner : string) (c : Approval) : bool :=
  readable allowance token_name token_symbol token_decimals balanceOf owner c
  && match allowance (tokenAddress c) owner (spender c),
           token_decimals (tokenAddress c),
           balanceOf (tokenAddress c) owner with
     | Some a, Some decimals, Some balance =>
         bool_decide (is_Some (formatUnits a decimals))
         && bool_decide (is_Some (formatUnits balance decimals))
     | _, _, _ => false
     end.

Definition is_allowance_call (c : ExternalCall) : bool :=
  match c with RpcAllowance _ _ _ => true | _ => false end.

Definition is_name_call (c : ExternalCall) : bool :=
  match c with RpcName _ => true | _ => false end.

Definition is_explorer_call (c : ExternalCall) : bool :=
  match c with HttpGetSourceCode _ => true | _ => false end.

(** The queried allowance of the candidate is above zero. *)
Definition active (allowance : Address → string → Address → option Z)
    (owner : string) (c : Approval) : bool :=
  match allowance (tokenAddress c) owner (spender c) with
  | Some a => a >? 0
  | None => false
  end.

(** The two addresses an element of the answer shows. *)
Definition shownPair (r : ApprovalResult) : string * string :=
  (r_tokenAddress r, r_spender r).

Definition pairText (c : Approval) : string * string :=
  (text (tokenAddress c), text (spender c)).

Definition is_getLogs_call (c : ExternalCall) : bool :=
  match c with RpcGetLogs _ => true | _ => false end.

(** A chain for examples with failing candidates: the name read of token
    C is rejected, and token B reports 255 decimals, which [formatUnits]
    refuses. *)
Definition failingLogs : list Log :=
  [ mkLog addressA (Some addressB); mkLog addressC (Some addressB);
    mkLog addressB (Some addressC) ].

Definition failingFormat (value decimals : Z) : option string :=
  if 80 <? decimals then None else Some (pretty value).

Definition failingName (token : Address) : option string :=
  if String.eqb (text token) (text addressC) then None else Some "Token".

Definition failingDecimals (token : Address) : option Z :=
  if String.eqb (text token) (text addressB) then Some 255 else Some 18.

Definition failingWorld (body : RequestBody) : Eff Response :=
  approvals_handler ∅ ∅ (λ _, Rejected)
    is_address_literal
    (λ s, Some ("0x" +:+ padStart 64 "0" (slice 2 s)))
    failingFormat
    (λ _, Some failingLogs)
    (λ _ _ _, Some 5)
    failingName (λ _, Some "TKN") failingDecimals (λ _ _, Some 100)
    body.

(** * Properties *)

(** ** The risk score *)

Section Scoring.

Implicit Types (d : SpenderDetails) (a b : Z) (ex : list Exploit).

Lemma riskLevelMap_other (k : string) :
  k ≠ "low" → k ≠ "medium" → k ≠ "high" → k ≠ "unknown" →
  riskLevelMap !! k = None.
Proof.
  intros. unfold riskLevelMap. simpl.
  rewrite !lookup_insert_ne by done. apply lookup_empty.
Qed.

Lemma categoryRiskMap_other (k : string) :
  k ∉ ["DEX"; "Lending"; "Staking"; "Bridge"; "NFT"; "Other"; "Unknown"] →
  categoryRiskMap !! k = None.
Proof.
  intros Hk. unfold categoryRiskMap. simpl.
  rewrite !lookup_insert_ne; [apply lookup_empty | ..];
    intros <-; apply Hk; set_solver.
Qed.

Lemma prototype_not_in_riskLevelMap (k : string) :
  k ∈ Js.ObjectPrototype → riskLevelMap !! k = None.
Proof.
  unfold Js.ObjectPrototype. rewrite !elem_of_cons, elem_of_nil.
  intros H. repeat (destruct H as [-> | H]; [by vm_compute |]). done.
Qed.

Lemma prototype_not_in_categoryRiskMap (k : string) :
  k ∈ Js.ObjectPrototype → categoryRiskMap !! k = None.
Proof.
  unfold Js.ObjectPrototype. rewrite !elem_of_cons, elem_of_nil.
  intros H. repeat (destruct H as [-> | H]; [by vm_compute |]). done.
Qed.

(** What [riskLevelMap[level] || 15] evaluates to, for every key. *)
Lemma riskLevelScore_cases d :
  riskLevelScore d =
    if decide (riskLevel d = "medium") then Js.Num 10
    else if decide (riskLevel d = "high") then Js.Num 20
    else if decide (riskLevel d ∈ Js.ObjectPrototype)
         then Js.Builtin (riskLevel d)
    else Js.Num 15.
Proof.
  unfold riskLevelScore, Js.get_num, Js.get.
  destruct (decide (riskLevel d = "medium")) as [-> | ?]; [done |].
  destruct (decide (riskLevel d = "high")) as [-> | ?]; [done |].
  destruct (decide (riskLevel d = "low")) as [-> | ?]; [done |].
  destruct (decide (riskLevel d = "unknown")) as [-> | ?]; [done |].
  rewrite riskLevelMap_other by done.
  destruct (decide (riskLevel d ∈ Js.ObjectPrototype)).
  - by rewrite bool_decide_eq_true_2.
  - by rewrite bool_decide_eq_false_2.
Qed.

Lemma categoryRisk_cases d :
  categoryRisk d =
    if decide (category d ∈ Js.ObjectPrototype)
    then Js.Builtin (category d)
    else Js.Num (categoryPoints (category d)).
Proof.
  unfold categoryRisk, Js.get_num, Js.get, categoryPoints.
  destruct (decide (category d ∈ Js.ObjectPrototype)) as [Hp | Hp].
  { by rewrite prototype_not_in_categoryRiskMap, bool_decide_eq_true_2. }
  destruct (decide
    (category d ∈ ["DEX"; "Lending"; "Staking"; "Bridge"; "NFT"; "Other";
                   "Unknown"])) as [Hk | Hk].
  - rewrite !elem_of_cons, elem_of_nil in Hk.
    repeat (destruct Hk as [-> | Hk]; [done |]). done.
  - rewrite categoryRiskMap_other, bool_decide_eq_false_2 by done.
    rewrite !not_elem_of_cons in Hk.
    repeat (destruct Hk as [? Hk]). by repeat case_decide.
Qed.

Lemma auditFactor_points d :
  ∃ n, contribution (auditFactor d) = Js.Num n ∧ 0 ≤ n ≤ 25.
Proof.
  unfold auditFactor. destruct (audited d), (isVerified d);
    eexists; (split; [reflexivity | lia]).
Qed.

Lemma allowanceFactor_points a b :
  ∃ n, contribution (allowanceFactor a b) = Js.Num n ∧ 5 ≤ n ≤ 20.
Proof.
  unfold allowanceFactor.
  destruct (a =? maxUint256), (a >? b * 10), (a >? b);
    eexists; (split; [reflexivity | lia]).
Qed.

Lemma categoryPoints_bounds k : 4 ≤ categoryPoints k ≤ 25.
Proof. unfold categoryPoints. repeat case_decide; lia. Qed.

Lemma riskLevelPoints_bounds k : 10 ≤ riskLevelPoints k ≤ 20.
Proof. unfold riskLevelPoints. repeat case_decide; lia. Qed.

(** On every profile whose category and risk level are not names of
    [Object.prototype] members, the score is the sum of the five
    contributions, cut off at 100; the sum is at most 105. *)
Lemma score_capped_on_plain_keys d a b ex :
  category d ∉ Js.ObjectPrototype →
  riskLevel d ∉ Js.ObjectPrototype →
  ∃ c1 c2 c3 c4 c5,
    contributions (calculateRiskScore d a b ex) = Js.Num <$> [c1; c2; c3; c4; c5]
    ∧ score (calculateRiskScore d a b ex)
      = Js.Num (Z.min (c1 + c2 + c3 + c4 + c5) 100)
    ∧ 0 ≤ Z.min (c1 + c2 + c3 + c4 + c5) 100 ≤ 100
    ∧ c1 + c2 + c3 + c4 + c5 ≤ 105.
Proof.
  intros Hc Hl.
  destruct (auditFactor_points d) as (c1 & E1 & ?).
  destruct (allowanceFactor_points a b) as (c4 & E4 & ?).
  pose proof (categoryPoints_bounds (category d)).
  pose proof (riskLevelPoints_bounds (riskLevel d)).
  exists c1, (categoryPoints (category d)), (riskLevelPoints (riskLevel d)),
    c4, (if (0 <? length ex)%nat then 15 else 0).
  unfold calculateRiskScore, contributions. cbn [factors score fmap list_fmap].
  cbn [contribution].
  rewrite E1, E4, categoryRisk_cases, (riskLevelScore_cases d).
  rewrite (decide_False (P := category d ∈ _)) by done.
  rewrite (decide_False (P := riskLevel d ∈ _)) by done.
  assert (Hlvl : (if decide (riskLevel d = "medium") then Js.Num 10
                  else if decide (riskLevel d = "high") then Js.Num 20
                  else Js.Num 15) = Js.Num (riskLevelPoints (riskLevel d))).
  { unfold riskLevelPoints. by repeat case_decide. }
  rewrite Hlvl. unfold exploitFactor.
  destruct (0 <? length ex)%nat; cbn [contribution Js.add Js.Math_min Js.to_number];
    (split; [reflexivity |]); (split; [f_equal; f_equal; lia | lia]).
Qed.

(** The bound 105 is reached, and then cut to 100. *)
Lemma raw_sum_105_scores_100 b e :
  score (calculateRiskScore (profile false false "Unknown" "high")
           maxUint256 b [e]) = Js.Num 100
  ∧ contributions (calculateRiskScore (profile false false "Unknown" "high")
           maxUint256 b [e]) = Js.Num <$> [25; 25; 20; 20; 15].
Proof. split; reflexivity. Qed.

End Scoring.

(** Scenario B of the specification, for any positive balance. *)
Lemma scenario_B (b : Z) (e : Exploit) :
  0 < b →
  contributions (calculateRiskScore (profile false false "Unknown" "high")
                   (20 * b) b [e]) = Js.Num <$> [25; 25; 20; 15; 15]
  ∧ score (calculateRiskScore (profile false false "Unknown" "high")
             (20 * b) b [e]) = Js.Num 100.
Proof.
  intros Hb. unfold calculateRiskScore, contributions, allowanceFactor.
  assert (E1 : (20 * b =? maxUint256) = false).
  { apply Z.eqb_neq. unfold maxUint256. intros E.
    assert (H : (2 ^ 256 - 1) mod 20 = 15) by reflexivity.
    rewrite <- E, Z.mul_comm, Z_mod_mult in H. discriminate. }
  assert (E2 : (20 * b >? b * 10) = true) by (apply Z.gtb_lt; lia).
  rewrite E1, E2. split; reflexivity.
Qed.

(** C1 (scenario A as the code computes it).  For an audited DEX profile
    with riskLevel "low", an allowance of 2^256 - 1 and no exploit, the
    five contributions are 0, 4, 15, 20, 0 and the score is 39: the entry
    [low: 0] of [riskLevelMap] is falsy, so [|| 15] replaces it. *)
Theorem scenario_A_actual (d : SpenderDetails) (b : Z) :
  audited d = true → category d = "DEX" → riskLevel d = "low" →
  contributions (calculateRiskScore d maxUint256 b [])
    = Js.Num <$> [0; 4; 15; 20; 0]
  ∧ score (calculateRiskScore d maxUint256 b []) = Js.Num 39.
Proof.
  intros Ha Hc Hl. unfold calculateRiskScore, contributions.
  unfold auditFactor, categoryRisk, riskLevelScore. rewrite Ha, Hc, Hl.
  split; reflexivity.
Qed.

Lemma scenario_A_actual_witness :
  contributions (calculateRiskScore (profile true false "DEX" "low")
                   maxUint256 1000 [])
    = Js.Num <$> [0; 4; 15; 20; 0]
  ∧ score (calculateRiskScore (profile true false "DEX" "low")
             maxUint256 1000 []) = Js.Num 39.
Proof.
  apply (scenario_A_actual (profile true false "DEX" "low") 1000);
    reflexivity.
Defined.

(** C2 (the declared-risk-level factor at "low").  Whatever the rest of the
    input, a profile whose riskLevel is "low" gets the third factor
    { Risk Level, low, 15 }, not 0. *)
Theorem riskLevel_low_contributes_15
    (d : SpenderDetails) (a b : Z) (ex : list Exploit) :
  riskLevel d = "low" →
  factors (calculateRiskScore d a b ex) !! 2%nat
    = Some (mkRiskFactor "Risk Level" "low" (Js.Num 15)).
Proof.
  intros Hl. unfold calculateRiskScore. cbn [factors].
  unfold riskLevelScore. rewrite Hl. reflexivity.
Qed.

Lemma riskLevel_low_contributes_15_witness :
  factors (calculateRiskScore (profile false true "Lending" "low") 7 9 [])
    !! 2%nat
    = Some (mkRiskFactor "Risk Level" "low" (Js.Num 15)).
Proof.
  apply (riskLevel_low_contributes_15 (profile false true "Lending" "low"));
    reflexivity.
Defined.

(** The other rows of the risk-level table are as the specification has
    them: medium 10, high 20, unknown 15, and 15 for every other key that
    is not the name of an [Object.prototype] member. *)
Lemma riskLevelScore_table (d : SpenderDetails) :
  (riskLevel d = "medium" → riskLevelScore d = Js.Num 10)
  ∧ (riskLevel d = "high" → riskLevelScore d = Js.Num 20)
  ∧ (riskLevel d = "unknown" → riskLevelScore d = Js.Num 15)
  ∧ (riskLevel d ∉ ["low"; "medium"; "high"; "unknown"] →
     riskLevel d ∉ Js.ObjectPrototype → riskLevelScore d = Js.Num 15).
Proof.
  rewrite riskLevelScore_cases. repeat split.
  - by intros ->.
  - by intros ->.
  - by intros ->.
  - intros Hk Hp. rewrite !not_elem_of_cons in Hk.
    destruct Hk as (? & ? & ? & ? & _). by repeat case_decide.
Qed.

(** The same loss of the number happens through the risk-level table. *)
Lemma score_NaN_on_inherited_riskLevel
    (d : SpenderDetails) (a b : Z) (ex : list Exploit) :
  riskLevel d ∈ Js.ObjectPrototype →
  score (calculateRiskScore d a b ex) = Js.NaN.
Proof.
  intros Hl. unfold calculateRiskScore. cbn [score].
  rewrite (riskLevelScore_cases d).
  assert (riskLevel d ≠ "medium" ∧ riskLevel d ≠ "high") as [? ?].
  { split; intros E; rewrite E in Hl; revert Hl;
      unfold Js.ObjectPrototype; rewrite !elem_of_cons, elem_of_nil;
      intros H; repeat (destruct H as [H | H]; [discriminate |]); done. }
  rewrite !decide_False by done. rewrite decide_True by done.
  destruct (auditFactor_points d) as (c1 & -> & _).
  cbn [contribution Js.add].
  destruct (categoryRisk d), (contribution (allowanceFactor a b)),
    (0 <? length ex)%nat, (contribution (exploitFactor ex)); reflexivity.
Qed.

(** C3 (the score on a category that names an [Object.prototype] member).
    [categoryRiskMap[category]] then finds the inherited member, which is
    truthy; adding it to [riskScore] concatenates strings, and
    [Math.min] of that string and 100 is NaN: the score is no number in
    0..100. *)
Theorem score_NaN_on_inherited_category
    (d : SpenderDetails) (a b : Z) (ex : list Exploit) :
  category d ∈ Js.ObjectPrototype →
  score (calculateRiskScore d a b ex) = Js.NaN
  ∧ factors (calculateRiskScore d a b ex) !! 1%nat
    = Some (mkRiskFactor "Category" (category d) (Js.Builtin (category d))).
Proof.
  intros Hc. unfold calculateRiskScore. cbn [score factors].
  rewrite categoryRisk_cases, decide_True by done.
  destruct (auditFactor_points d) as (c1 & -> & _).
  split; [| reflexivity].
  cbn [contribution Js.add].
  destruct (riskLevelScore d), (contribution (allowanceFactor a b)),
    (0 <? length ex)%nat, (contribution (exploitFactor ex)); reflexivity.
Qed.

Lemma score_NaN_on_inherited_category_witness :
  score (calculateRiskScore (profile true true "constructor" "medium")
           500 1000 []) = Js.NaN
  ∧ factors (calculateRiskScore (profile true true "constructor" "medium")
               500 1000 []) !! 1%nat
    = Some (mkRiskFactor "Category" "constructor" (Js.Builtin "constructor")).
Proof.
  apply (score_NaN_on_inherited_category
           (profile true true "constructor" "medium") 500 1000 []).
  unfold Js.ObjectPrototype. simpl. left.
Defined.

(** ** Strings, hexadecimal text and addresses *)

Section Strings.

Implicit Types (s t h : string) (c : ascii).

Lemma append_nil t : "" +:+ t = t.
Proof. reflexivity. Qed.

Lemma append_cons c s t : String c s +:+ t = String c (s +:+ t).
Proof. reflexivity. Qed.

Lemma append_assoc s t u : (s +:+ t) +:+ u = s +:+ t +:+ u.
Proof.
  induction s as [| c s IH]; [done |]. by rewrite !append_cons, IH.
Qed.

Lemma append_inj_length s1 s2 t1 t2 :
  String.length s1 = String.length s2 →
  s1 +:+ t1 = s2 +:+ t2 → s1 = s2 ∧ t1 = t2.
Proof.
  revert s2. induction s1 as [| c s1 IH]; intros [| c2 s2] Hl E;
    try discriminate; [done |].
  rewrite !append_cons in E. injection E as -> E. injection Hl as Hl.
  destruct (IH _ Hl E) as [-> ->]. done.
Qed.

Lemma length_repeat_char c n : String.length (repeat_char c n) = n.
Proof. induction n; cbn; congruence. Qed.

Lemma hex_digit_value c : is_hex_digit c → ∃ v, hex_value c = Some v.
Proof.
  unfold is_hex_digit, hex_value. cbv zeta.
  destruct ((48 <=? _) && _)%N; [eauto |].
  destruct ((97 <=? _) && _)%N; [eauto |].
  destruct ((65 <=? _) && _)%N; [eauto | done].
Qed.

Lemma decode_hex_app s t bytes :
  decode_hex s = Some bytes →
  decode_hex (s +:+ t) = (bytes ++.) <$> decode_hex t.
Proof.
  revert s. induction bytes as [| x bytes IH]; intros s.
  - destruct s as [| c1 [| c2 r]]; cbn [decode_hex]; [| done |].
    + intros _. rewrite append_nil. by destruct (decode_hex t).
    + destruct (hex_value c1), (hex_value c2), (decode_hex r); done.
  - destruct s as [| c1 [| c2 r]]; cbn [decode_hex]; [done | done |].
    destruct (hex_value c1) as [hi |] eqn:E1,
             (hex_value c2) as [lo |] eqn:E2; try done.
    destruct (decode_hex r) as [bs |] eqn:Er; [| done].
    intros [= <- <-]. rewrite !append_cons. cbn [decode_hex].
    rewrite E1, E2, (IH r Er). by destruct (decode_hex t).
Qed.

Lemma all_hex_decode n h :
  String.length h = (2 * n)%nat → all_hex h →
  ∃ bytes, decode_hex h = Some bytes ∧ length bytes = n.
Proof.
  revert h. induction n as [| n IH]; intros h Hl Hh.
  - destruct h; [by exists [] | done].
  - destruct h as [| c1 [| c2 r]]; try (cbn in Hl; lia).
    cbn in Hh. apply andb_True in Hh as [H1 Hh].
    apply andb_True in Hh as [H2 Hh].
    destruct (hex_digit_value _ H1) as [hi E1].
    destruct (hex_digit_value _ H2) as [lo E2].
    destruct (IH r) as (bs & Er & Hbs); [cbn in Hl; lia | done |].
    exists ((16 * hi + lo)%N :: bs). cbn. rewrite E1, E2, Er.
    split; [done | cbn; lia].
Qed.

Lemma decode_zeros n : decode_hex (repeat_char "0" (2 * n)) = Some (replicate n 0%N).
Proof.
  induction n as [| n IH]; [done |].
  replace (2 * S n)%nat with (S (S (2 * n))) by lia. cbn [repeat_char decode_hex].
  rewrite IH. reflexivity.
Qed.

(** The shape of an address literal. *)
Lemma address_shape (a : Address) :
  ∃ h, text a = "0x" +:+ h ∧ String.length h = 40%nat ∧ all_hex h.
Proof.
  destruct a as [s Hs]. unfold text. cbn [proj1_sig].
  unfold is_address_literal in Hs.
  destruct s as [| c0 s]; [done |].
  destruct (decide (c0 = "0"%char)) as [-> | n0].
  2: { exfalso. destruct c0 as [[] [] [] [] [] [] [] []]; done. }
  destruct s as [| c1 h]; [done |].
  destruct (decide (c1 = "x"%char)) as [-> | n1].
  2: { exfalso. destruct c1 as [[] [] [] [] [] [] [] []]; done. }
  apply andb_True in Hs as [Hl Hh]. exists h. split; [done |].
  split; [| done]. by apply Nat.eqb_eq, Is_true_eq_true.
Qed.

Lemma address_length (a : Address) : String.length (text a) = 42%nat.
Proof.
  destruct (address_shape a) as (h & -> & Hl & _).
  rewrite !append_cons, append_nil. cbn. by rewrite Hl.
Qed.

Lemma text_inj (a b : Address) : text a = text b → a = b.
Proof. apply (sig_eq_pi _). Qed.

(** A lower-cased address literal is no name of an [Object.prototype]
    member, so a lookup under that key in any object is a lookup among the
    own properties. *)
Lemma address_key_not_inherited (a : Address) :
  toLowerCase (text a) ∉ Js.ObjectPrototype.
Proof.
  destruct (address_shape a) as (h & -> & _).
  rewrite !append_cons, append_nil. cbn.
  unfold Js.ObjectPrototype. rewrite !not_elem_of_cons. repeat split; try done.
  apply not_elem_of_nil.
Qed.

Lemma address_lookup_own {A} (own : gmap string A) (a : Address) :
  Js.get own (toLowerCase (text a))
  = match own !! toLowerCase (text a) with
    | Some v => Js.Own v
    | None => Js.Missing
    end.
Proof.
  unfold Js.get. destruct (own !! _); [done |].
  by rewrite bool_decide_eq_false_2 by apply address_key_not_inherited.
Qed.

End Strings.

Example getApprovalDescription_first_match :
  getApprovalDescription "UniswapV3Router02" = "Can swap your tokens on Uniswap"
  ∧ getApprovalDescription "SwapRouter02" = "Can swap your tokens"
  ∧ getApprovalDescription "Unknown Contract"
    = "This contract can transfer your tokens.".
Proof. repeat split; reflexivity. Qed.

(** ** The revocation calldata *)

(** C4.  For every spender address the calldata is the text [0x095ea7b3],
    24 zeros and the 40 digits of the address (64 digits: the address
    left-padded to 32 bytes), and 64 zeros; as bytes: the selector
    09 5e a7 b3, 12 zero bytes and the 20 bytes of the address, 32 zero
    bytes.  For 0xAAAA...AA (40 digits) it is the text written out below. *)
Theorem revokeData_layout :
  (∀ spender : Address, ∃ (h : string) (account : list N),
      text spender = "0x" +:+ h
      ∧ String.length h = 40%nat
      ∧ revokeData (text spender)
        = "0x095ea7b3" +:+ repeat_char "0" 24 +:+ h +:+ repeat_char "0" 64
      ∧ bytes_of_0x (text spender) = Some account
      ∧ length account = 20%nat
      ∧ bytes_of_0x (revokeData (text spender))
        = Some ([9; 94; 167; 179] ++ replicate 12 0 ++ account
                  ++ replicate 32 0)%N)
  ∧ revokeData "0xAAAAAAAAAAAAAAAAAAAAAAAAAAAAAAAAAAAAAAAA"
    = "0x095ea7b3"
      +:+ "000000000000000000000000AAAAAAAAAAAAAAAAAAAAAAAAAAAAAAAAAAAAAAAA"
      +:+ "0000000000000000000000000000000000000000000000000000000000000000".
Proof.
  split; [| reflexivity].
  intros spender. destruct (address_shape spender) as (h & E & Hl & Hh).
  destruct (all_hex_decode 20 h) as (account & Ea & Hacc); [by rewrite Hl | done |].
  exists h, account. rewrite E.
  assert (Ed : revokeData ("0x" +:+ h)
               = "0x095ea7b3" +:+ repeat_char "0" 24 +:+ h +:+ repeat_char "0" 64).
  { unfold revokeData, padStart.
    change (slice 2 ("0x" +:+ h)) with h. by rewrite Hl. }
  rewrite Ed. repeat split; try done.
  unfold bytes_of_0x.
  change (slice 2 ("0x095ea7b3" +:+ repeat_char "0" 24 +:+ h +:+ repeat_char "0" 64))
    with ("095ea7b3" +:+ repeat_char "0" (2 * 12) +:+ h +:+ repeat_char "0" (2 * 32)).
  rewrite (decode_hex_app "095ea7b3" _ [9; 94; 167; 179]%N) by reflexivity.
  rewrite (decode_hex_app _ _ _ (decode_zeros 12)).
  rewrite (decode_hex_app _ _ _ Ea), decode_zeros. reflexivity.
Qed.

(** ** The candidate map *)

Section CandidateMap.

Context {V : Type}.
Implicit Types (m : list (string * V)) (k : string) (v : V).

Lemma Map_set_keys k v m :
  Map_keys (Map_set k v m)
  = if decide (k ∈ Map_keys m) then Map_keys m else Map_keys m ++ [k].
Proof.
  unfold Map_keys. induction m as [| [k' v'] m IH]; [done |].
  cbn [Map_set]. destruct (decide (k' = k)) as [-> | Hne].
  - rewrite decide_True by (cbn; left). done.
  - cbn [fmap list_fmap fst] in *. rewrite IH.
    destruct (decide (k ∈ m.*1)) as [Hin | Hin].
    + rewrite decide_True by (by right). done.
    + rewrite decide_False; [done |].
      intros [? | ?]%elem_of_cons; [congruence | done].
Qed.

Lemma Map_set_NoDup k v m :
  NoDup (Map_keys m) → NoDup (Map_keys (Map_set k v m)).
Proof.
  intros Hnd. rewrite Map_set_keys. case_decide; [done |].
  apply NoDup_app. split; [done |]. split; [| apply NoDup_singleton].
  intros x Hx ->%list_elem_of_singleton. done.
Qed.

Lemma Map_set_elem k v m k' v' :
  (k', v') ∈ Map_set k v m → (k' = k ∧ v' = v) ∨ (k', v') ∈ m.
Proof.
  induction m as [| [k0 v0] m IH]; cbn [Map_set].
  - intros [= -> ->]%list_elem_of_singleton. by left.
  - destruct (decide (k0 = k)) as [-> | Hne].
    + intros [[= -> ->] | ?]%elem_of_cons; [by left | right; by right].
    + intros [[= -> ->] | H]%elem_of_cons; [right; left |].
      destruct (IH H); [by left | right; by right].
Qed.

Lemma Map_set_here k v m : (k, v) ∈ Map_set k v m.
Proof.
  induction m as [| [k0 v0] m IH]; cbn [Map_set]; [left |].
  destruct (decide (k0 = k)); [left | by right].
Qed.

Lemma Map_set_other k v m k' v' :
  k' ≠ k → (k', v') ∈ m → (k', v') ∈ Map_set k v m.
Proof.
  intros Hne. induction m as [| [k0 v0] m IH]; [by intros ?%elem_of_nil |].
  cbn [Map_set]. intros [[= <- <-] | H]%elem_of_cons.
  - rewrite decide_False by done. left.
  - destruct (decide (k0 = k)); right; auto.
Qed.

End CandidateMap.

Section Candidates.

Implicit Types (m : list (string * Approval)) (logs : list Log).

Lemma approvalKey_inj (t1 s1 t2 s2 : Address) :
  approvalKey t1 s1 = approvalKey t2 s2 → t1 = t2 ∧ s1 = s2.
Proof.
  unfold approvalKey. intros E.
  apply append_inj_length in E as [Et E];
    [| by rewrite !address_length].
  apply (append_inj_length "-" "-") in E as [_ Es]; [| done].
  split; by apply text_inj.
Qed.

Lemma recordLog_keyed m log : keyed m → keyed (recordLog m log).
Proof.
  unfold recordLog. destruct (parsed_spender log) as [s |]; [| done].
  intros Hm k c [[-> ->] | H]%Map_set_elem; [done | by apply Hm].
Qed.

Lemma recordLog_NoDup m log :
  NoDup (Map_keys m) → NoDup (Map_keys (recordLog m log)).
Proof.
  unfold recordLog. destruct (parsed_spender log); [| done].
  apply Map_set_NoDup.
Qed.

(** A candidate once recorded stays: a later [set] under its key writes
    the same pair again. *)
Lemma recordLog_keeps m log c :
  keyed m → c ∈ Map_values m → c ∈ Map_values (recordLog m log).
Proof.
  unfold recordLog, Map_values. intros Hm Hc.
  destruct (parsed_spender log) as [s |]; [| done].
  apply list_elem_of_fmap in Hc as ([k c'] & -> & Hin). cbn [snd].
  apply list_elem_of_fmap.
  destruct (decide (k = approvalKey (log_address log) s)) as [Hk | Hk].
  - exists (k, c'). split; [done |].
    rewrite (Hm _ _ Hin) in Hk. apply approvalKey_inj in Hk as [Ht Hs].
    destruct c' as [t' s']. cbn in Ht, Hs. subst t' s'.
    rewrite (Hm _ _ Hin). cbn. apply Map_set_here.
  - exists (k, c'). split; [done |]. by apply Map_set_other.
Qed.

Lemma recordLog_adds m log s :
  parsed_spender log = Some s →
  mkApproval (log_address log) s ∈ Map_values (recordLog m log).
Proof.
  unfold recordLog, Map_values. intros ->. apply list_elem_of_fmap.
  eexists (_, _). split; [| apply Map_set_here]. done.
Qed.

Lemma recordLog_origin m log c :
  c ∈ Map_values (recordLog m log) →
  c ∈ Map_values m
  ∨ (parsed_spender log = Some (spender c) ∧ log_address log = tokenAddress c).
Proof.
  unfold recordLog, Map_values.
  destruct (parsed_spender log) as [s |]; [| by left].
  intros ([k c'] & -> & Hin)%list_elem_of_fmap. cbn [snd].
  apply Map_set_elem in Hin as [[_ ->] | Hin]; [by right |].
  left. apply list_elem_of_fmap. by exists (k, c').
Qed.

Lemma keyed_values_NoDup m :
  keyed m → NoDup (Map_keys m) → NoDup (Map_values m).
Proof.
  unfold Map_keys, Map_values. intros Hk.
  induction m as [| [k c] m IH]; [constructor |].
  cbn. rewrite !NoDup_cons. intros [Hnin Hnd]. split.
  - intros ([k' c'] & Ec & Hin)%list_elem_of_fmap. cbn in Ec. subst c'.
    apply Hnin, list_elem_of_fmap. exists (k', c). split; [| done].
    cbn. rewrite (Hk k c) by left. by rewrite (Hk k' c) by by right.
  - apply IH; [| done]. intros k' c' H. apply Hk. by right.
Qed.

Lemma filter_absent {A} `{EqDecision A} (x : A) (l : list A) :
  x ∉ l → filter (λ y, y = x) l = [].
Proof.
  induction l as [| y l IH]; [done |].
  rewrite not_elem_of_cons. intros [Hne Hnin].
  rewrite filter_cons_False by congruence. auto.
Qed.

Lemma once_in_NoDup {A} `{EqDecision A} (x : A) (l : list A) :
  NoDup l → x ∈ l → length (filter (λ y, y = x) l) = 1%nat.
Proof.
  induction l as [| y l IH]; [by intros _ ?%elem_of_nil |].
  rewrite NoDup_cons. intros [Hnin Hnd] Hx.
  destruct (decide (y = x)) as [-> | Hne].
  - rewrite filter_cons_True by done. by rewrite filter_absent.
  - rewrite filter_cons_False by done. apply IH; [done |].
    apply elem_of_cons in Hx as [-> | ?]; done.
Qed.

Lemma collectApprovals_invariant logs :
  keyed (collectApprovals logs) ∧ NoDup (Map_keys (collectApprovals logs)).
Proof.
  unfold collectApprovals. induction logs as [| log logs IH] using rev_ind.
  - split; [by intros k c ?%elem_of_nil | constructor].
  - rewrite foldl_app. cbn [foldl]. destruct IH as [Hk Hnd].
    split; [by apply recordLog_keyed | by apply recordLog_NoDup].
Qed.

End Candidates.

Lemma collectApprovals_contains (logs : list Log) (log : Log) (s : Address) :
  log ∈ logs → parsed_spender log = Some s →
  mkApproval (log_address log) s ∈ Map_values (collectApprovals logs).
Proof.
  intros Hin Hs. induction logs as [| l logs IH] using rev_ind.
  - by apply elem_of_nil in Hin.
  - unfold collectApprovals. rewrite foldl_app. cbn [foldl].
    apply elem_of_app in Hin as [Hin | ->%list_elem_of_singleton].
    + apply recordLog_keeps; [apply collectApprovals_invariant | by apply IH].
    + by apply recordLog_adds.
Qed.

Lemma collectApprovals_origin (logs : list Log) (c : Approval) :
  c ∈ Map_values (collectApprovals logs) →
  ∃ log, log ∈ logs ∧ parsed_spender log = Some (spender c)
         ∧ log_address log = tokenAddress c.
Proof.
  induction logs as [| l logs IH] using rev_ind.
  - by intros ?%elem_of_nil.
  - unfold collectApprovals. rewrite foldl_app. cbn [foldl].
    intros [H | [H1 H2]]%recordLog_origin.
    + destruct (IH H) as (log & ? & ? & ?). exists log.
      split; [apply elem_of_app; by left | done].
    + exists l. split; [apply elem_of_app; right; left | done].
Qed.

(** C7.  After the loop over the logs no key occurs twice in the map and no
    (token, spender) pair occurs twice among the candidates; every decoded
    event, however often its pair was granted, has exactly one candidate;
    and every candidate comes from a decoded event. *)
Theorem collectApprovals_dedup (logs : list Log) :
  NoDup (Map_keys (collectApprovals logs))
  ∧ NoDup (Map_values (collectApprovals logs))
  ∧ (∀ log s, log ∈ logs → parsed_spender log = Some s →
       length (filter (λ c, c = mkApproval (log_address log) s)
                 (Map_values (collectApprovals logs))) = 1%nat)
  ∧ (∀ c, c ∈ Map_values (collectApprovals logs) →
       ∃ log, log ∈ logs ∧ parsed_spender log = Some (spender c)
              ∧ log_address log = tokenAddress c).
Proof.
  destruct (collectApprovals_invariant logs) as [Hk Hnd].
  pose proof (keyed_values_NoDup _ Hk Hnd) as Hv.
  repeat split; try done.
  - intros log s Hin Hs. apply once_in_NoDup; [done |].
    by apply collectApprovals_contains.
  - apply collectApprovals_origin.
Qed.

(** Two grants of the same pair, one log that does not decode and one
    grant of another pair: the first pair has one candidate. *)
Lemma collectApprovals_dedup_witness :
  length (filter (λ c, c = mkApproval addressA addressB)
            (Map_values (collectApprovals
               [ mkLog addressA (Some addressB); mkLog addressC None;
                 mkLog addressA (Some addressC);
                 mkLog addressA (Some addressB) ]))) = 1%nat.
Proof.
  apply (proj1 (proj2 (proj2 (collectApprovals_dedup _)))
           (mkLog addressA (Some addressB)) addressB);
    [left | reflexivity].
Defined.

Example collectApprovals_order :
  Map_values (collectApprovals
    [ mkLog addressA (Some addressB); mkLog addressC None;
      mkLog addressA (Some addressC); mkLog addressA (Some addressB) ])
  = [ mkApproval addressA addressB; mkApproval addressA addressC ].
Proof. reflexivity. Qed.

(** ** Computations with external calls *)

Section Effects.

Context {A B : Type}.

Lemma value_of_bind (m : Eff A) (f : A → Eff B) :
  value_of (m ≫= f) = value_of (f (value_of m)).
Proof.
  unfold value_of, mbind, Eff_bind. destruct m as [t a]. cbn.
  by destruct (f a).
Qed.

Lemma calls_of_bind (m : Eff A) (f : A → Eff B) :
  calls_of (m ≫= f) = calls_of m ++ calls_of (f (value_of m)).
Proof.
  unfold calls_of, value_of, mbind, Eff_bind. destruct m as [t a]. cbn.
  by destruct (f a).
Qed.

Lemma value_of_ret (a : A) : value_of (mret a : Eff A) = a.
Proof. reflexivity. Qed.

Lemma calls_of_ret (a : A) : calls_of (mret a : Eff A) = [].
Proof. reflexivity. Qed.

End Effects.

Lemma value_of_mapM {A B} (f : A → Eff B) (l : list A) :
  value_of (mapM f l) = (λ x, value_of (f x)) <$> l.
Proof.
  induction l as [| x l IH]; [done |].
  change (mapM f (x :: l)) with (y ← f x; k ← mapM f l; mret (y :: k)).
  rewrite !value_of_bind, value_of_ret. cbn. by rewrite <- IH.
Qed.

(** ** The spender resolver *)

Section ResolverFacts.

Variable contractDatabase : gmap string Contract.
Implicit Types (etherscan : Address → EtherscanReply) (s : Address).

Lemma getSpenderDetails_value etherscan s :
  value_of (getSpenderDetails contractDatabase etherscan s)
  = match value_of (getSpenderDetails_try contractDatabase etherscan s) with
    | Returned d => d
    | Thrown | FellThrough => defaultDetails s
    end.
Proof.
  unfold getSpenderDetails. rewrite value_of_bind.
  by destruct (value_of (getSpenderDetails_try _ _ _)).
Qed.

(** Without a registry entry the [try] block ends as the explorer's
    answer makes it end. *)
Lemma getSpenderDetails_try_unlisted etherscan s :
  contractDatabase !! toLowerCase (text s) = None →
  value_of (getSpenderDetails_try contractDatabase etherscan s)
  = match etherscan s with
    | Rejected | NoBody => Thrown
    | NoResult => FellThrough
    | Result0 ContractName SourceCode =>
        Returned
          {| name := or_str ContractName "Unknown Contract";
             description :=
               getApprovalDescription (or_str ContractName "Unknown Contract");
             isVerified := truthy_str SourceCode;
             riskLevel := "unknown";
             category := "Other";
             risks := [ "Verify contract details before approving" ];
             benefits := [];
             documentation := "https://etherscan.io/address/" +:+ text s;
             audited := false |}
    end.
Proof.
  intros Hdb. unfold getSpenderDetails_try. rewrite Hdb, value_of_bind.
  by destruct (etherscan s).
Qed.

End ResolverFacts.

(** [getSpenderDetails] has no failing outcome: an exception inside its
    [try] block is the completion [Thrown], which the [catch] clause
    absorbs.  For a spender address without registry entry whose explorer
    request is rejected, or whose answer has no body or no result, the
    value is the default profile: name "Unknown Contract", riskLevel
    "high", category "Unknown", not verified, not audited. *)
Lemma getSpenderDetails_fail_safe
    (contractDatabase : gmap string Contract)
    (etherscan : Address → EtherscanReply) (spenderAddress : Address) :
  contractDatabase !! toLowerCase (text spenderAddress) = None →
  etherscan spenderAddress = Rejected ∨ etherscan spenderAddress = NoBody
    ∨ etherscan spenderAddress = NoResult →
  let d := value_of (getSpenderDetails contractDatabase etherscan spenderAddress) in
  d = defaultDetails spenderAddress
  ∧ name d = "Unknown Contract" ∧ riskLevel d = "high"
  ∧ category d = "Unknown" ∧ isVerified d = false ∧ audited d = false.
Proof.
  intros Hdb Hfail d. subst d.
  rewrite getSpenderDetails_value, getSpenderDetails_try_unlisted by done.
  destruct Hfail as [-> | [-> | ->]]; done.
Qed.

Lemma getSpenderDetails_fail_safe_witness :
  let d := value_of (getSpenderDetails ∅ (λ _, Rejected) addressA) in
  d = defaultDetails addressA
  ∧ name d = "Unknown Contract" ∧ riskLevel d = "high"
  ∧ category d = "Unknown" ∧ isVerified d = false ∧ audited d = false.
Proof.
  apply (getSpenderDetails_fail_safe ∅ (λ _, Rejected) addressA);
    [reflexivity | left; reflexivity].
Defined.

(** C5 (the explorer's own failure answer).  When the explorer refuses the
    request (bad key, rate limit) it still answers with status 200, and
    [result] is the error text: element 0 is then a character, truthy and
    without fields.  For a spender address without registry entry the
    resolver takes that for a contract without name: it returns the
    profile with riskLevel "unknown" and category "Other", not the default
    profile with "high" and "Unknown". *)
Theorem explorer_error_answer_not_default
    (contractDatabase : gmap string Contract)
    (etherscan : Address → EtherscanReply) (spenderAddress : Address) :
  contractDatabase !! toLowerCase (text spenderAddress) = None →
  etherscan spenderAddress = Result0 None None →
  let d := value_of (getSpenderDetails contractDatabase etherscan spenderAddress) in
  d = {| name := "Unknown Contract";
         description := "This contract can transfer your tokens.";
         isVerified := false;
         riskLevel := "unknown";
         category := "Other";
         risks := [ "Verify contract details before approving" ];
         benefits := [];
         documentation := "https://etherscan.io/address/" +:+ text spenderAddress;
         audited := false |}
  ∧ d ≠ defaultDetails spenderAddress
  ∧ riskLevel d ≠ "high" ∧ category d ≠ "Unknown".
Proof.
  intros Hdb He d. subst d.
  rewrite getSpenderDetails_value, getSpenderDetails_try_unlisted by done.
  rewrite He. repeat split; done.
Qed.

Lemma explorer_error_answer_not_default_witness :
  let d := value_of (getSpenderDetails ∅ (λ _, Result0 None None) addressA) in
  d = {| name := "Unknown Contract";
         description := "This contract can transfer your tokens.";
         isVerified := false;
         riskLevel := "unknown";
         category := "Other";
         risks := [ "Verify contract details before approving" ];
         benefits := [];
         documentation := "https://etherscan.io/address/" +:+ text addressA;
         audited := false |}
  ∧ d ≠ defaultDetails addressA
  ∧ riskLevel d ≠ "high" ∧ category d ≠ "Unknown".
Proof.
  apply (explorer_error_answer_not_default ∅ (λ _, Result0 None None) addressA);
    reflexivity.
Defined.

(** C10.  Without a registry entry, an explorer answer whose element 0 has
    no contract name (the field is missing or empty) yields the synthesized
    profile named "Unknown Contract" with riskLevel "unknown" and category
    "Other"; a failing explorer call yields the default profile, also named
    "Unknown Contract", with riskLevel "high" and category "Unknown".  The
    two profiles differ. *)
Theorem two_unknown_contract_profiles
    (contractDatabase : gmap string Contract)
    (answering failing : Address → EtherscanReply) (spenderAddress : Address)
    (ContractName SourceCode : option string) :
  contractDatabase !! toLowerCase (text spenderAddress) = None →
  answering spenderAddress = Result0 ContractName SourceCode →
  truthy_str ContractName = false →
  failing spenderAddress = Rejected →
  let d1 := value_of (getSpenderDetails contractDatabase answering spenderAddress) in
  let d2 := value_of (getSpenderDetails contractDatabase failing spenderAddress) in
  d1 = {| name := "Unknown Contract";
          description := "This contract can transfer your tokens.";
          isVerified := truthy_str SourceCode;
          riskLevel := "unknown";
          category := "Other";
          risks := [ "Verify contract details before approving" ];
          benefits := [];
          documentation := "https://etherscan.io/address/" +:+ text spenderAddress;
          audited := false |}
  ∧ d2 = defaultDetails spenderAddress
  ∧ name d1 = name d2
  ∧ riskLevel d1 ≠ riskLevel d2
  ∧ category d1 ≠ category d2.
Proof.
  intros Hdb Ha Hn Hf d1 d2. subst d1 d2.
  rewrite !getSpenderDetails_value, !getSpenderDetails_try_unlisted by done.
  rewrite Ha, Hf.
  assert (or_str ContractName "Unknown Contract" = "Unknown Contract") as ->.
  { by destruct ContractName as [[| ? ?] |]. }
  repeat split; done.
Qed.

Lemma two_unknown_contract_profiles_witness :
  let d1 := value_of (getSpenderDetails ∅ (λ _, Result0 (Some "") (Some ""))
                        addressA) in
  let d2 := value_of (getSpenderDetails ∅ (λ _, Rejected) addressA) in
  d1 = {| name := "Unknown Contract";
          description := "This contract can transfer your tokens.";
          isVerified := false;
          riskLevel := "unknown";
          category := "Other";
          risks := [ "Verify contract details before approving" ];
          benefits := [];
          documentation := "https://etherscan.io/address/" +:+ text addressA;
          audited := false |}
  ∧ d2 = defaultDetails addressA
  ∧ name d1 = name d2
  ∧ riskLevel d1 ≠ riskLevel d2
  ∧ category d1 ≠ category d2.
Proof.
  apply (two_unknown_contract_profiles ∅ (λ _, Result0 (Some "") (Some ""))
           (λ _, Rejected) addressA (Some "") (Some ""));
    reflexivity.
Defined.

(** ** The scan *)

Section ScanFacts.

Variable contractDatabase : gmap string Contract.
Variable exploitDatabase : gmap string (list Exploit).
Variable etherscan : Address → EtherscanReply.
Variable isAddress : string → bool.
Variable zeroPadValue32 : string → option string.
Variable formatUnits : Z → Z → option string.
Variable getLogs : string → option (list Log).
Variable allowance : Address → string → Address → option Z.
Variable token_name : Address → option string.
Variable token_symbol : Address → option string.
Variable token_decimals : Address → option Z.
Variable balanceOf : Address → string → option Z.

Local Abbreviation resolve :=
  (resolveApproval contractDatabase exploitDatabase etherscan formatUnits
     allowance token_name token_symbol token_decimals balanceOf).
Local Abbreviation handler :=
  (approvals_handler contractDatabase exploitDatabase etherscan isAddress
     zeroPadValue32 formatUnits getLogs allowance token_name token_symbol
     token_decimals balanceOf).

(** A candidate that yields a result had a positive allowance, and the
    result names the candidate's two addresses. *)
Lemma resolveApproval_some (owner : string) (c : Approval) (r : ApprovalResult) :
  value_of (resolve owner c) = Some r →
  ∃ a, allowance (tokenAddress c) owner (spender c) = Some a ∧ 0 < a
       ∧ r_tokenAddress r = text (tokenAddress c)
       ∧ r_spender r = text (spender c).
Proof.
  unfold resolveApproval. rewrite value_of_bind.
  destruct (allowance (tokenAddress c) owner (spender c)) as [a |]; [| done].
  destruct (a >? 0) eqn:Ha; [| done].
  rewrite !value_of_bind.
  destruct (token_name (tokenAddress c)), (token_symbol (tokenAddress c)),
    (token_decimals (tokenAddress c)) as [decimals |],
    (balanceOf (tokenAddress c) owner) as [balance |];
    try done.
  rewrite value_of_bind.
  destruct (formatUnits a decimals), (formatUnits balance decimals); try done.
  rewrite value_of_ret. intros [= <-].
  exists a. apply Z.gtb_lt in Ha. by repeat split.
Qed.

Lemma resolveApproval_zero (owner : string) (c : Approval) :
  allowance (tokenAddress c) owner (spender c) = Some 0 →
  value_of (resolve owner c) = None.
Proof.
  intros Ha. unfold resolveApproval. by rewrite value_of_bind, Ha.
Qed.

(** The handler's answer when both guards let the request through. *)
Lemma handler_scan (body : RequestBody) (owner : string) :
  validOwner isAddress (walletAddress body) = Some owner →
  truthy_json (chainId body) && strict_ne_1 (chainId body) = false →
  value_of (handler body)
  = match zeroPadValue32 owner with
    | None => Status500
    | Some addressTopic =>
        match getLogs addressTopic with
        | None => Status500
        | Some logs =>
            let detailedApprovals :=
              omap (λ c, value_of (resolve owner c))
                   (Map_values (collectApprovals logs)) in
            Status200 (length detailedApprovals) detailedApprovals
        end
    end.
Proof.
  intros Ho Hc. unfold approvals_handler. rewrite Ho, Hc.
  destruct (zeroPadValue32 owner) as [topic |]; [| done].
  rewrite value_of_bind. destruct (getLogs topic) as [logs |]; [| done].
  rewrite value_of_bind, value_of_ret, value_of_mapM. cbv zeta.
  assert (E : ∀ (l : list Approval),
    omap id ((λ x, value_of (resolve owner x)) <$> l)
    = omap (λ c, value_of (resolve owner c)) l).
  { induction l as [| x l IH]; [done |].
    rewrite fmap_cons.
    change (omap id (?y :: ?k)) with
      (match id y with Some z => z :: omap id k | None => omap id k end).
    rewrite IH. reflexivity. }
  by rewrite E.
Qed.

Lemma validOwner_string (v : Json) (owner : string) :
  validOwner isAddress v = Some owner → v = JString owner.
Proof.
  destruct v; try done. cbn.
  destruct (negb _ || negb _); [done | by intros [= ->]].
Qed.

(** A successful answer lists what the candidates of the owner's logs
    resolve to, in the order of the map. *)
Lemma handler_ok (body : RequestBody) (count : nat)
    (approvals : list ApprovalResult) :
  value_of (handler body) = Status200 count approvals →
  ∃ owner addressTopic logs,
    walletAddress body = JString owner
    ∧ zeroPadValue32 owner = Some addressTopic
    ∧ getLogs addressTopic = Some logs
    ∧ approvals = omap (λ c, value_of (resolve owner c))
                       (Map_values (collectApprovals logs))
    ∧ count = length approvals.
Proof.
  intros Hres.
  destruct (validOwner isAddress (walletAddress body)) as [owner |] eqn:Ho.
  2: { unfold approvals_handler in Hres. by rewrite Ho in Hres. }
  destruct (truthy_json (chainId body) && strict_ne_1 (chainId body)) eqn:Hc.
  { unfold approvals_handler in Hres. by rewrite Ho, Hc in Hres. }
  rewrite (handler_scan body owner Ho Hc) in Hres.
  destruct (zeroPadValue32 owner) as [topic |] eqn:Et; [| done].
  destruct (getLogs topic) as [logs |] eqn:El; [| done].
  cbv zeta in Hres. injection Hres as <- <-.
  exists owner, topic, logs. by rewrite (validOwner_string _ _ Ho).
Qed.

End ScanFacts.

(** C6.  In every successful answer of the scan, [count] is the length of
    the list, and each listed approval belongs to a (token, spender) pair
    whose queried allowance for the owner was above zero; a candidate whose
    allowance is 0 resolves to nothing and is filtered out. *)
Theorem zero_allowance_never_listed
    (contractDatabase : gmap string Contract)
    (exploitDatabase : gmap string (list Exploit))
    (etherscan : Address → EtherscanReply)
    (isAddress : string → bool) (zeroPadValue32 : string → option string)
    (formatUnits : Z → Z → option string)
    (getLogs : string → option (list Log))
    (allowance : Address → string → Address → option Z)
    (token_name token_symbol : Address → option string)
    (token_decimals : Address → option Z)
    (balanceOf : Address → string → option Z)
    (body : RequestBody) (owner : string)
    (count : nat) (approvals : list ApprovalResult) :
  walletAddress body = JString owner →
  value_of (approvals_handler contractDatabase exploitDatabase etherscan
              isAddress zeroPadValue32 formatUnits getLogs allowance
              token_name token_symbol token_decimals balanceOf body)
    = Status200 count approvals →
  count = length approvals
  ∧ (∀ r token spender, r ∈ approvals →
       r_tokenAddress r = text token → r_spender r = text spender →
       ∃ a, allowance token owner spender = Some a ∧ 0 < a)
  ∧ (∀ token spender, allowance token owner spender = Some 0 →
       ∀ r, r ∈ approvals →
         ¬ (r_tokenAddress r = text token ∧ r_spender r = text spender)).
Proof.
  intros Hw Hres.
  apply handler_ok in Hres as (o & topic & logs & Ho & _ & _ & -> & ->).
  rewrite Hw in Ho. injection Ho as <-.
  assert (Hpos : ∀ r token spender,
    r ∈ omap (λ c, value_of (resolveApproval contractDatabase exploitDatabase
                    etherscan formatUnits allowance token_name token_symbol
                    token_decimals balanceOf owner c))
             (Map_values (collectApprovals logs)) →
    r_tokenAddress r = text token → r_spender r = text spender →
    ∃ a, allowance token owner spender = Some a ∧ 0 < a).
  { intros r token spender Hr Ht Hs.
    apply list_elem_of_omap in Hr as (c & _ & Hc).
    apply resolveApproval_some in Hc as (a & Ha & Hpos & Et & Es).
    rewrite Ht in Et. rewrite Hs in Es.
    apply text_inj in Et as ->. apply text_inj in Es as ->. eauto. }
  split; [done | split; [exact Hpos |]].
  intros token spender Hz r Hr [Ht Hs].
  destruct (Hpos r token spender Hr Ht Hs) as (a & Ha & ?).
  rewrite Hz in Ha. injection Ha as <-. lia.
Qed.

Lemma zero_allowance_never_listed_witness :
  1%nat = length sampleApprovals
  ∧ (∀ r token spender, r ∈ sampleApprovals →
       r_tokenAddress r = text token → r_spender r = text spender →
       ∃ a, (if String.eqb (text spender) (text addressB)
             then Some 0 else Some 5) = Some a ∧ 0 < a)
  ∧ (∀ token spender,
       (if String.eqb (text spender) (text addressB)
        then Some 0 else Some 5) = Some 0 →
       ∀ r, r ∈ sampleApprovals →
         ¬ (r_tokenAddress r = text token ∧ r_spender r = text spender)).
Proof.
  apply (zero_allowance_never_listed ∅ ∅ (λ _, Rejected)
           is_address_literal
           (λ s, Some ("0x" +:+ padStart 64 "0" (slice 2 s)))
           (λ v _, Some (pretty v))
           (λ _, Some [ mkLog addressA (Some addressB);
                        mkLog addressA (Some addressC) ])
           (λ _ _ spender,
              if String.eqb (text spender) (text addressB)
              then Some 0 else Some 5)
           (λ _, Some "Token") (λ _, Some "TKN") (λ _, Some 18)
           (λ _ _, Some 100)
           (mkRequestBody (JString sampleOwner) JAbsent) sampleOwner
           1 sampleApprovals);
    reflexivity.
Defined.

Example sampleApprovals_spenders :
  r_spender <$> sampleApprovals = [text addressC]
  ∧ r_riskScore <$> sampleApprovals = [Js.Num 75].
Proof. split; reflexivity. Qed.

(** The owner guard lets a text through exactly when it is not empty and
    [isAddress] accepts it. *)
Lemma validOwner_accepts (isAddress : string → bool) (v : Json) (owner : string) :
  validOwner isAddress v = Some owner
  ↔ v = JString owner ∧ owner ≠ "" ∧ isAddress owner = true.
Proof.
  unfold validOwner. split.
  - destruct v as [| | | | | s | |]; try done.
    destruct s as [| ch s]; [done |]. cbn.
    destruct (isAddress (String ch s)) eqn:E; [| done].
    intros [= <-]. done.
  - intros (-> & Hne & Hs). destruct owner as [| ch s]; [done |].
    cbn. by rewrite Hs.
Qed.

(** C8 (the chain selector 0).  A request with a valid owner whose chain
    selector is the number 0 names a chain other than the supported one,
    yet [chainId && chainId !== 1] is false for it: the request is not
    rejected, the logs are queried and the answer is a success. *)
Theorem chain_selector_zero_is_scanned
    (contractDatabase : gmap string Contract)
    (exploitDatabase : gmap string (list Exploit))
    (etherscan : Address → EtherscanReply)
    (isAddress : string → bool) (zeroPadValue32 : string → option string)
    (formatUnits : Z → Z → option string)
    (getLogs : string → option (list Log))
    (allowance : Address → string → Address → option Z)
    (token_name token_symbol : Address → option string)
    (token_decimals : Address → option Z)
    (balanceOf : Address → string → option Z)
    (body : RequestBody) (owner addressTopic : string) (logs : list Log) :
  walletAddress body = JString owner → owner ≠ "" →
  isAddress owner = true →
  chainId body = JNumber 0 →
  zeroPadValue32 owner = Some addressTopic →
  getLogs addressTopic = Some logs →
  let run := approvals_handler contractDatabase exploitDatabase etherscan
               isAddress zeroPadValue32 formatUnits getLogs allowance
               token_name token_symbol token_decimals balanceOf body in
  otherChainSelected (chainId body)
  ∧ ¬ rejectedBeforeAnyCall run
  ∧ head (calls_of run) = Some (RpcGetLogs addressTopic)
  ∧ ∃ approvals, value_of run = Status200 (length approvals) approvals.
Proof.
  intros Hw Hne Hs Hc Ht Hl run.
  assert (Ho : validOwner isAddress (walletAddress body) = Some owner)
    by (by apply validOwner_accepts).
  assert (Hcalls : head (calls_of run) = Some (RpcGetLogs addressTopic)).
  { subst run. unfold approvals_handler. rewrite Ho, Hc. cbn [truthy_json Z.eqb negb andb].
    rewrite Ht, calls_of_bind. reflexivity. }
  split; [rewrite Hc; by exists 0 |]. split; [| split; [done |]].
  - intros [Hnone _]. by rewrite Hnone in Hcalls.
  - subst run. eexists.
    rewrite (handler_scan contractDatabase exploitDatabase etherscan isAddress
               zeroPadValue32 formatUnits getLogs allowance token_name
               token_symbol token_decimals balanceOf body owner Ho)
      by (by rewrite Hc).
    rewrite Ht, Hl. reflexivity.
Qed.

Lemma chain_selector_zero_is_scanned_witness :
  let run := sampleWorld (mkRequestBody (JString sampleOwner) (JNumber 0)) in
  otherChainSelected (JNumber 0)
  ∧ ¬ rejectedBeforeAnyCall run
  ∧ head (calls_of run)
    = Some (RpcGetLogs
        "0x00000000000000000000000000000000000000000000000000000000000000f1")
  ∧ ∃ approvals, value_of run = Status200 (length approvals) approvals.
Proof.
  apply (chain_selector_zero_is_scanned ∅ ∅ (λ _, Rejected)
           is_address_literal
           (λ s, Some ("0x" +:+ padStart 64 "0" (slice 2 s)))
           (λ v _, Some (pretty v))
           (λ _, Some [ mkLog addressA (Some addressB);
                        mkLog addressA (Some addressC) ])
           (λ _ _ spender,
              if String.eqb (text spender) (text addressB)
              then Some 0 else Some 5)
           (λ _, Some "Token") (λ _, Some "TKN") (λ _, Some 18)
           (λ _ _, Some 100)
           (mkRequestBody (JString sampleOwner) (JNumber 0)) sampleOwner
           "0x00000000000000000000000000000000000000000000000000000000000000f1"
           [ mkLog addressA (Some addressB); mkLog addressA (Some addressC) ]);
    done.
Defined.

(** An owner text that [isAddress] accepts and [zeroPadValue] cannot pad
    (ethers: hexadecimal digits without the prefix 0x, the ICAP form) ends
    in the outer [catch]: status 500, also before any external call. *)
Lemma unpaddable_owner_gets_500
    (contractDatabase : gmap string Contract)
    (exploitDatabase : gmap string (list Exploit))
    (etherscan : Address → EtherscanReply)
    (isAddress : string → bool) (zeroPadValue32 : string → option string)
    (formatUnits : Z → Z → option string)
    (getLogs : string → option (list Log))
    (allowance : Address → string → Address → option Z)
    (token_name token_symbol : Address → option string)
    (token_decimals : Address → option Z)
    (balanceOf : Address → string → option Z)
    (body : RequestBody) (owner : string) :
  walletAddress body = JString owner → owner ≠ "" →
  isAddress owner = true →
  truthy_json (chainId body) = false ∨ chainId body = JNumber 1 →
  zeroPadValue32 owner = None →
  approvals_handler contractDatabase exploitDatabase etherscan
    isAddress zeroPadValue32 formatUnits getLogs allowance
    token_name token_symbol token_decimals balanceOf body
  = ([], Status500).
Proof.
  intros Hw Hne Hs Hc Ht.
  assert (Ho : validOwner isAddress (walletAddress body) = Some owner)
    by (by apply validOwner_accepts).
  assert (Hc' : truthy_json (chainId body) && strict_ne_1 (chainId body)
                = false)
    by (destruct Hc as [-> | ->]; done).
  unfold approvals_handler. by rewrite Ho, Hc', Ht.
Qed.

(** An owner of forty hexadecimal digits without the prefix, which
    [ethers.isAddress] accepts and [ethers.zeroPadValue] refuses. *)
Example unpaddable_owner_run :
  approvals_handler ∅ ∅ (λ _, Rejected)
    (λ s, is_address_literal ("0x" +:+ s) || is_address_literal s)
    (λ s, if is_address_literal s
          then Some ("0x" +:+ padStart 64 "0" (slice 2 s)) else None)
    (λ v _, Some (pretty v)) (λ _, Some []) (λ _ _ _, Some 0)
    (λ _, Some "Token") (λ _, Some "TKN") (λ _, Some 18) (λ _ _, Some 100)
    (mkRequestBody (JString "00000000000000000000000000000000000000f1")
       JAbsent)
  = ([], Status500).
Proof. reflexivity. Qed.

(** X18.  The two guards answer with status 400 before any external call:
    a request whose owner field is absent, is no string, is the empty
    string or is a text that [isAddress] refuses, and a request whose
    chain selector is truthy and is not the number 1. *)
Theorem refused_requests_cost_no_call
    (contractDatabase : gmap string Contract)
    (exploitDatabase : gmap string (list Exploit))
    (etherscan : Address → EtherscanReply)
    (isAddress : string → bool) (zeroPadValue32 : string → option string)
    (formatUnits : Z → Z → option string)
    (getLogs : string → option (list Log))
    (allowance : Address → string → Address → option Z)
    (token_name token_symbol : Address → option string)
    (token_decimals : Address → option Z)
    (balanceOf : Address → string → option Z)
    (body : RequestBody) :
  (∀ s, walletAddress body = JString s → s = "" ∨ isAddress s = false)
  ∨ (truthy_json (chainId body) = true ∧ chainId body ≠ JNumber 1) →
  rejectedBeforeAnyCall
    (approvals_handler contractDatabase exploitDatabase etherscan
       isAddress zeroPadValue32 formatUnits getLogs allowance
       token_name token_symbol token_decimals balanceOf body).
Proof.
  intros H. unfold approvals_handler, rejectedBeforeAnyCall.
  destruct (validOwner isAddress (walletAddress body)) as [owner |] eqn:Ho.
  - destruct H as [Hw | [Ht Hne]].
    + exfalso. unfold validOwner in Ho.
      destruct (walletAddress body) as [| | | | | s | |]; try done.
      destruct (Hw s eq_refl) as [-> | Hs]; [done |].
      rewrite Hs in Ho. cbn in Ho. by rewrite orb_true_r in Ho.
    + assert (strict_ne_1 (chainId body) = true) as Hs.
      { destruct (chainId body) as [| | | n | | | |]; try done.
        cbn. apply negb_true_iff, Z.eqb_neq. congruence. }
      rewrite Ht, Hs. cbn. eauto.
  - cbn. eauto.
Qed.

Lemma refused_requests_cost_no_call_witness :
  rejectedBeforeAnyCall
    (sampleWorld (mkRequestBody (JString sampleOwner) (JNumber 137)))
  ∧ rejectedBeforeAnyCall
      (sampleWorld (mkRequestBody (JString "0x12345") JAbsent)).
Proof.
  split.
  - apply (refused_requests_cost_no_call ∅ ∅ (λ _, Rejected)
             is_address_literal
             (λ s, Some ("0x" +:+ padStart 64 "0" (slice 2 s)))
             (λ v _, Some (pretty v))
             (λ _, Some [ mkLog addressA (Some addressB);
                          mkLog addressA (Some addressC) ])
             (λ _ _ spender,
                if String.eqb (text spender) (text addressB)
                then Some 0 else Some 5)
             (λ _, Some "Token") (λ _, Some "TKN") (λ _, Some 18)
             (λ _ _, Some 100)
             (mkRequestBody (JString sampleOwner) (JNumber 137))).
    right. split; [reflexivity | discriminate].
  - apply (refused_requests_cost_no_call ∅ ∅ (λ _, Rejected)
             is_address_literal
             (λ s, Some ("0x" +:+ padStart 64 "0" (slice 2 s)))
             (λ v _, Some (pretty v))
             (λ _, Some [ mkLog addressA (Some addressB);
                          mkLog addressA (Some addressC) ])
             (λ _ _ spender,
                if String.eqb (text spender) (text addressB)
                then Some 0 else Some 5)
             (λ _, Some "Token") (λ _, Some "TKN") (λ _, Some 18)
             (λ _ _, Some 100)
             (mkRequestBody (JString "0x12345") JAbsent)).
    left. intros s [= <-]. right. reflexivity.
Defined.

(** ** Letter case of addresses *)

Section LetterCase.

Lemma hex_value_lower (c : ascii) : hex_value (lower_ascii c) = hex_value c.
Proof. destruct c as [[] [] [] [] [] [] [] []]; reflexivity. Qed.

Lemma hex_value_digit (c : ascii) (v : N) :
  hex_value c = Some v → lower_ascii c = hex_digit_of v ∧ (v < 16)%N.
Proof.
  destruct c as [[] [] [] [] [] [] [] []]; vm_compute; try discriminate;
    intros [= <-]; done.
Qed.

Lemma decode_hex_toLowerCase (s : string) :
  decode_hex (toLowerCase s) = decode_hex s.
Proof.
  enough (H : decode_hex (toLowerCase s) = decode_hex s
              ∧ ∀ c, decode_hex (toLowerCase (String c s))
                     = decode_hex (String c s)) by apply H.
  induction s as [| c' s [IH1 IH2]]; [done |].
  split; [apply IH2 |].
  intros c. cbn [toLowerCase decode_hex].
  cbn [toLowerCase] in IH1 |- *. by rewrite !hex_value_lower, IH1.
Qed.

Lemma decode_hex_same_lower (bytes : list N) (s1 s2 : string) :
  decode_hex s1 = Some bytes → decode_hex s2 = Some bytes →
  toLowerCase s1 = toLowerCase s2.
Proof.
  revert s1 s2. induction bytes as [| x bytes IH]; intros s1 s2.
  - destruct s1 as [| a1 [| b1 r1]], s2 as [| a2 [| b2 r2]]; cbn;
      try done.
    + destruct (hex_value a2), (hex_value b2), (decode_hex r2); done.
    + destruct (hex_value a1), (hex_value b1), (decode_hex r1); done.
    + destruct (hex_value a1), (hex_value b1), (decode_hex r1); done.
  - destruct s1 as [| a1 [| b1 r1]], s2 as [| a2 [| b2 r2]]; cbn;
      try done.
    destruct (hex_value a1) as [h1 |] eqn:Ea1; [| done].
    destruct (hex_value b1) as [l1 |] eqn:Eb1; [| done].
    destruct (decode_hex r1) as [bs1 |] eqn:Er1; [| done].
    destruct (hex_value a2) as [h2 |] eqn:Ea2; [| done].
    destruct (hex_value b2) as [l2 |] eqn:Eb2; [| done].
    destruct (decode_hex r2) as [bs2 |] eqn:Er2; [| done].
    intros [= <- <-] [= E <-].
    apply hex_value_digit in Ea1 as [-> ?], Eb1 as [-> ?].
    apply hex_value_digit in Ea2 as [-> ?], Eb2 as [-> ?].
    assert (h2 = h1 ∧ l2 = l1) as [-> ->] by lia.
    by rewrite (IH r1 r2 Er1 Er2).
Qed.

(** Two address literals agree up to letter case exactly when they name
    the same 20 bytes. *)
Lemma same_account_iff (a b : Address) :
  toLowerCase (text a) = toLowerCase (text b)
  ↔ bytes_of_0x (text a) = bytes_of_0x (text b).
Proof.
  destruct (address_shape a) as (ha & -> & Hla & Hha).
  destruct (address_shape b) as (hb & -> & Hlb & Hhb).
  unfold bytes_of_0x.
  change (slice 2 ("0x" +:+ ha)) with ha. change (slice 2 ("0x" +:+ hb)) with hb.
  change (toLowerCase ("0x" +:+ ha)) with ("0x" +:+ toLowerCase ha).
  change (toLowerCase ("0x" +:+ hb)) with ("0x" +:+ toLowerCase hb).
  split.
  - intros E. apply (append_inj_length "0x" "0x") in E as [_ E]; [| done].
    by rewrite <- (decode_hex_toLowerCase ha), E, decode_hex_toLowerCase.
  - intros E.
    destruct (all_hex_decode 20 ha) as (bytes & Ea & _); [by rewrite Hla | done |].
    rewrite Ea in E. symmetry in E.
    by rewrite (decode_hex_same_lower bytes ha hb Ea E).
Qed.

End LetterCase.

(** ** The revocation request *)

(** C9.  [revokeApproval] hands a transaction to the wallet only when a
    wallet is connected and its address equals the owner's up to letter
    case, and then the transaction is sent from the connected address to
    the token with the calldata of [revokeData]; when the two differ, the
    run shows the mismatch error and hands nothing over.  For two address
    literals, differing up to letter case is naming different accounts. *)
Theorem revoke_only_for_owner
    (connectedAddress : option string)
    (ethereum_request : Transaction → string + string)
    (tokenAddress spenderAddress walletAddress : string) :
  let run := revokeApproval connectedAddress ethereum_request
               tokenAddress spenderAddress walletAddress in
  (∀ connected, connectedAddress = Some connected →
     toLowerCase connected ≠ toLowerCase walletAddress →
     request run = None ∧ Forall (λ m, m.2 = "error") (shown run))
  ∧ (∀ tx, request run = Some tx →
       ∃ connected, connectedAddress = Some connected
         ∧ toLowerCase connected = toLowerCase walletAddress
         ∧ tx = mkTransaction connected tokenAddress (revokeData spenderAddress))
  ∧ (∀ caller owner : Address,
       connectedAddress = Some (text caller) → walletAddress = text owner →
       bytes_of_0x (text caller) ≠ bytes_of_0x (text owner) →
       request run = None
       ∧ shown run = [("Connected wallet does not match the approval owner",
                       "error")]).
Proof.
  cbv zeta. unfold revokeApproval. split; [| split].
  - intros connected -> Hne. destruct connected as [| c s].
    + split; [done | repeat constructor].
    + destruct (String.eqb _ _) eqn:E.
      * by apply String.eqb_eq in E.
      * split; [done | repeat constructor].
  - intros tx Htx. destruct connectedAddress as [[| c s] |]; try done.
    destruct (String.eqb _ _) eqn:E; [| done].
    apply String.eqb_eq in E. injection Htx as <-. eauto.
  - intros caller owner -> -> Hb.
    assert (Hne : toLowerCase (text caller) ≠ toLowerCase (text owner))
      by (by rewrite same_account_iff).
    pose proof (address_length caller) as Hl.
    destruct (text caller) as [| c s]; [done |].
    destruct (String.eqb _ _) eqn:E; [| done].
    by apply String.eqb_eq in E.
Qed.

Lemma revoke_only_for_owner_witness :
  request (revokeApproval (Some (text addressA)) (λ _, inl "0xabc")
             (text addressC) (text addressB) (text addressB)) = None
  ∧ shown (revokeApproval (Some (text addressA)) (λ _, inl "0xabc")
             (text addressC) (text addressB) (text addressB))
    = [("Connected wallet does not match the approval owner", "error")].
Proof.
  apply (proj2 (proj2 (revoke_only_for_owner (Some (text addressA))
                         (λ _, inl "0xabc") (text addressC) (text addressB)
                         (text addressB))) addressA addressB);
    [reflexivity | reflexivity | vm_compute; discriminate].
Defined.

(** The owner, connected under another letter case, gets the calldata. *)
Example revoke_by_owner :
  request (revokeApproval
             (Some "0xbbbbbbbbbbbbbbbbbbbbbbbbbbbbbbbbbbbbbbbb")
             (λ _, inl "0x5c504ed432cb51138bcf09aa5e8a410dd4a1e204")
             (text addressC) (text addressA) (text addressB))
  = Some (mkTransaction "0xbbbbbbbbbbbbbbbbbbbbbbbbbbbbbbbbbbbbbbbb"
            (text addressC) (revokeData (text addressA))).
Proof. reflexivity. Qed.

(** * Further properties *)

(** ** More on the risk score *)

Lemma riskLevelScore_plain (d : SpenderDetails) :
  riskLevel d ∉ Js.ObjectPrototype →
  riskLevelScore d = Js.Num (riskLevelPoints (riskLevel d)).
Proof.
  intros Hl. rewrite riskLevelScore_cases. unfold riskLevelPoints.
  rewrite (decide_False (P := riskLevel d ∈ _)) by done.
  by repeat case_decide.
Qed.

Lemma categoryRisk_plain (d : SpenderDetails) :
  category d ∉ Js.ObjectPrototype →
  categoryRisk d = Js.Num (categoryPoints (category d)).
Proof. intros Hc. by rewrite categoryRisk_cases, decide_False. Qed.

Lemma exploitFactor_points (ex : list Exploit) :
  contribution (exploitFactor ex)
  = Js.Num (if (0 <? length ex)%nat then 15 else 0).
Proof. unfold exploitFactor. by destruct (0 <? length ex)%nat. Qed.

(** The score of a profile with plain keys, as a number. *)
Lemma score_plain (d : SpenderDetails) (a b : Z) (ex : list Exploit) :
  category d ∉ Js.ObjectPrototype →
  riskLevel d ∉ Js.ObjectPrototype →
  ∃ c1 c4,
    contribution (auditFactor d) = Js.Num c1 ∧ 0 ≤ c1 ≤ 25
    ∧ contribution (allowanceFactor a b) = Js.Num c4 ∧ 5 ≤ c4 ≤ 20
    ∧ score (calculateRiskScore d a b ex)
      = Js.Num (Z.min (c1 + categoryPoints (category d)
                       + riskLevelPoints (riskLevel d) + c4
                       + (if (0 <? length ex)%nat then 15 else 0)) 100).
Proof.
  intros Hc Hl.
  destruct (auditFactor_points d) as (c1 & E1 & ?).
  destruct (allowanceFactor_points a b) as (c4 & E4 & ?).
  exists c1, c4. repeat split; try done; try lia.
  unfold calculateRiskScore. cbn [score contribution].
  rewrite E1, E4, categoryRisk_plain, riskLevelScore_plain by done.
  rewrite exploitFactor_points.
  destruct (0 <? length ex)%nat;
    cbn [Js.add Js.Math_min Js.to_number]; do 2 f_equal; lia.
Qed.

(** X1.  On every profile whose category and risk level are not names of
    [Object.prototype] members, the five factors are named Audit Status,
    Category, Risk Level, Allowance, Known Exploits in this order, and the
    score is a number between 19 and 100: no input scores below 19. *)
Theorem score_between_19_and_100
    (d : SpenderDetails) (a b : Z) (ex : list Exploit) :
  category d ∉ Js.ObjectPrototype →
  riskLevel d ∉ Js.ObjectPrototype →
  f_name <$> factors (calculateRiskScore d a b ex)
    = ["Audit Status"; "Category"; "Risk Level"; "Allowance"; "Known Exploits"]
  ∧ ∃ n, score (calculateRiskScore d a b ex) = Js.Num n ∧ 19 ≤ n ≤ 100.
Proof.
  intros Hc Hl. split.
  - unfold calculateRiskScore, auditFactor, allowanceFactor, exploitFactor.
    cbn [factors]. destruct (audited d), (isVerified d), (a =? maxUint256),
      (a >? b * 10), (a >? b), (0 <? length ex)%nat; reflexivity.
  - destruct (score_plain d a b ex Hc Hl) as (c1 & c4 & _ & ? & _ & ? & ->).
    pose proof (categoryPoints_bounds (category d)).
    pose proof (riskLevelPoints_bounds (riskLevel d)).
    eexists. split; [reflexivity |].
    destruct (0 <? length ex)%nat; lia.
Qed.

(** The bound 19 is reached: audited, DEX, medium, allowance within the
    balance, no exploit. *)
Lemma score_between_19_and_100_witness :
  f_name <$> factors (calculateRiskScore (profile true false "DEX" "medium")
                        10 10 [])
    = ["Audit Status"; "Category"; "Risk Level"; "Allowance"; "Known Exploits"]
  ∧ ∃ n, score (calculateRiskScore (profile true false "DEX" "medium") 10 10 [])
         = Js.Num n ∧ 19 ≤ n ≤ 100.
Proof.
  apply (score_between_19_and_100 (profile true false "DEX" "medium") 10 10 []);
    unfold Js.ObjectPrototype; cbn; rewrite !not_elem_of_cons;
    repeat split; try discriminate; apply not_elem_of_nil.
Defined.

Example score_19 :
  score (calculateRiskScore (profile true false "DEX" "medium") 10 10 [])
  = Js.Num 19.
Proof. reflexivity. Qed.

(** X2.  Known exploits count as a flat 15: two non-empty exploit lists,
    whatever their lengths, give the same score and the same five
    contributions. *)
Theorem exploit_count_is_flat
    (d : SpenderDetails) (a b : Z) (ex1 ex2 : list Exploit) :
  ex1 ≠ [] → ex2 ≠ [] →
  score (calculateRiskScore d a b ex1) = score (calculateRiskScore d a b ex2)
  ∧ contributions (calculateRiskScore d a b ex1)
    = contributions (calculateRiskScore d a b ex2)
  ∧ contributions (calculateRiskScore d a b ex1) !! 4%nat = Some (Js.Num 15).
Proof.
  intros H1 H2. destruct ex1 as [| e1 l1]; [done |].
  destruct ex2 as [| e2 l2]; [done |].
  unfold calculateRiskScore, contributions, exploitFactor. cbn. done.
Qed.

Lemma exploit_count_is_flat_witness :
  score (calculateRiskScore (profile false true "Lending" "high") 7 9
           [mkExploit "a" "2021" []])
  = score (calculateRiskScore (profile false true "Lending" "high") 7 9
             [mkExploit "b" "2022" []; mkExploit "c" "2023" []])
  ∧ contributions (calculateRiskScore (profile false true "Lending" "high") 7 9
                     [mkExploit "a" "2021" []])
    = contributions (calculateRiskScore (profile false true "Lending" "high") 7 9
                       [mkExploit "b" "2022" []; mkExploit "c" "2023" []])
  ∧ contributions (calculateRiskScore (profile false true "Lending" "high") 7 9
                     [mkExploit "a" "2021" []]) !! 4%nat = Some (Js.Num 15).
Proof.
  apply (exploit_count_is_flat (profile false true "Lending" "high") 7 9
           [mkExploit "a" "2021" []]
           [mkExploit "b" "2022" []; mkExploit "c" "2023" []]);
    discriminate.
Defined.

(** X3.  Within the range of a uint256, a larger allowance against a
    smaller balance never lowers the allowance factor. *)
Theorem allowance_factor_monotone (a1 a2 b1 b2 : Z) :
  a1 ≤ a2 → a2 ≤ maxUint256 → b2 ≤ b1 →
  ∃ n1 n2,
    contribution (allowanceFactor a1 b1) = Js.Num n1
    ∧ contribution (allowanceFactor a2 b2) = Js.Num n2
    ∧ n1 ≤ n2.
Proof.
  intros Ha Hmax Hb. unfold allowanceFactor.
  destruct (Z.eqb_spec a1 maxUint256), (Z.eqb_spec a2 maxUint256);
    destruct (Z.gtb_spec a1 (b1 * 10)), (Z.gtb_spec a2 (b2 * 10)),
      (Z.gtb_spec a1 b1), (Z.gtb_spec a2 b2);
    do 2 eexists; (split; [reflexivity |]); (split; [reflexivity |]); lia.
Qed.

Lemma allowance_factor_monotone_witness :
  ∃ n1 n2,
    contribution (allowanceFactor 50 100) = Js.Num n1
    ∧ contribution (allowanceFactor 500 20) = Js.Num n2
    ∧ n1 ≤ n2.
Proof.
  apply (allowance_factor_monotone 50 500 100 20); unfold maxUint256; lia.
Defined.

(** X4.  An audit never raises the score: of two profiles with the same
    category and risk level (plain keys), the audited one scores at most
    what the other scores, for the same allowance, balance and exploits. *)
Theorem audit_never_raises_score
    (d1 d2 : SpenderDetails) (a b : Z) (ex : list Exploit) :
  category d1 = category d2 → riskLevel d1 = riskLevel d2 →
  category d1 ∉ Js.ObjectPrototype → riskLevel d1 ∉ Js.ObjectPrototype →
  audited d1 = true →
  ∃ n1 n2,
    score (calculateRiskScore d1 a b ex) = Js.Num n1
    ∧ score (calculateRiskScore d2 a b ex) = Js.Num n2
    ∧ n1 ≤ n2.
Proof.
  intros Ec El Hc Hl Ha.
  destruct (score_plain d1 a b ex Hc Hl) as (c1 & c4 & E1 & ? & E4 & ? & ->).
  rewrite Ec in Hc. rewrite El in Hl.
  destruct (score_plain d2 a b ex Hc Hl) as (c1' & c4' & E1' & ? & E4' & ? & ->).
  rewrite E4 in E4'. injection E4' as <-.
  unfold auditFactor in E1. rewrite Ha in E1. injection E1 as <-.
  rewrite Ec, El. do 2 eexists. split; [reflexivity |].
  split; [reflexivity |]. lia.
Qed.

Lemma audit_never_raises_score_witness :
  ∃ n1 n2,
    score (calculateRiskScore (profile true true "Bridge" "high") 7 9 [])
      = Js.Num n1
    ∧ score (calculateRiskScore (profile false true "Bridge" "high") 7 9 [])
      = Js.Num n2
    ∧ n1 ≤ n2.
Proof.
  apply (audit_never_raises_score (profile true true "Bridge" "high")
           (profile false true "Bridge" "high") 7 9 []);
    try reflexivity;
    unfold Js.ObjectPrototype; cbn; rewrite !not_elem_of_cons;
    repeat split; try discriminate; apply not_elem_of_nil.
Defined.

(** X5.  The risk level "low" is scored as "unknown": with the other
    fields equal, the profile declared low gets the score and the
    contributions of the one declared unknown, whatever the category is.
    When moreover the category is not the name of an [Object.prototype]
    member (so that the scores are numbers), the profile declared low
    scores at least what the one declared medium scores. *)
Theorem low_scores_as_unknown
    (low unknown medium : SpenderDetails) (a b : Z) (ex : list Exploit) :
  riskLevel low = "low" → riskLevel unknown = "unknown" →
  riskLevel medium = "medium" →
  audited low = audited unknown → isVerified low = isVerified unknown →
  category low = category unknown →
  audited low = audited medium → isVerified low = isVerified medium →
  category low = category medium →
  score (calculateRiskScore low a b ex)
    = score (calculateRiskScore unknown a b ex)
  ∧ contributions (calculateRiskScore low a b ex)
    = contributions (calculateRiskScore unknown a b ex)
  ∧ (category low ∉ Js.ObjectPrototype →
     ∃ n m, score (calculateRiskScore low a b ex) = Js.Num n
            ∧ score (calculateRiskScore medium a b ex) = Js.Num m
            ∧ m ≤ n).
Proof.
  intros Hl Hu Hm Ea Ev Ec Ea' Ev' Ec'.
  assert (Eau : auditFactor low = auditFactor unknown)
    by (unfold auditFactor; by rewrite Ea, Ev).
  assert (Ecu : categoryRisk low = categoryRisk unknown)
    by (unfold categoryRisk; by rewrite Ec).
  assert (Elu : riskLevelScore low = riskLevelScore unknown)
    by (unfold riskLevelScore; by rewrite Hl, Hu).
  split; [| split].
  - unfold calculateRiskScore. cbn [score contribution].
    by rewrite Eau, Ecu, Elu.
  - unfold calculateRiskScore, contributions. cbn. by rewrite Eau, Ecu, Elu.
  - intros Hc.
    assert (Hpl : riskLevel low ∉ Js.ObjectPrototype).
    { rewrite Hl. unfold Js.ObjectPrototype. rewrite !not_elem_of_cons.
      repeat split; try discriminate. apply not_elem_of_nil. }
    assert (Hpm : riskLevel medium ∉ Js.ObjectPrototype).
    { rewrite Hm. unfold Js.ObjectPrototype. rewrite !not_elem_of_cons.
      repeat split; try discriminate. apply not_elem_of_nil. }
    destruct (score_plain low a b ex Hc Hpl) as (c1 & c4 & E1 & ? & E4 & ? & ->).
    rewrite Ec' in Hc.
    destruct (score_plain medium a b ex Hc Hpm)
      as (c1' & c4' & E1' & ? & E4' & ? & ->).
    rewrite E4 in E4'. injection E4' as <-.
    assert (auditFactor low = auditFactor medium) as Eam
      by (unfold auditFactor; by rewrite Ea', Ev').
    rewrite Eam, E1' in E1. injection E1 as <-.
    rewrite Ec', Hl, Hm. do 2 eexists. split; [reflexivity |].
    split; [reflexivity |].
    change (riskLevelPoints "low") with 15.
    change (riskLevelPoints "medium") with 10. lia.
Qed.

Lemma low_scores_as_unknown_witness :
  score (calculateRiskScore (profile true true "DEX" "low") 7 9 [])
    = score (calculateRiskScore (profile true true "DEX" "unknown") 7 9 [])
  ∧ contributions (calculateRiskScore (profile true true "DEX" "low") 7 9 [])
    = contributions (calculateRiskScore (profile true true "DEX" "unknown")
                       7 9 [])
  ∧ ("DEX" ∉ Js.ObjectPrototype →
     ∃ n m, score (calculateRiskScore (profile true true "DEX" "low") 7 9 [])
              = Js.Num n
            ∧ score (calculateRiskScore (profile true true "DEX" "medium")
                       7 9 [])
              = Js.Num m
            ∧ m ≤ n).
Proof.
  apply (low_scores_as_unknown (profile true true "DEX" "low")
           (profile true true "DEX" "unknown")
           (profile true true "DEX" "medium") 7 9 []);
    reflexivity.
Defined.

(** The witness's category is a plain key, and its scores are 24 for low
    and unknown against 19 for medium. *)
Example low_scores_as_unknown_numbers :
  ("DEX" ∉ Js.ObjectPrototype)
  ∧ score (calculateRiskScore (profile true true "DEX" "low") 7 9 [])
    = Js.Num 24
  ∧ score (calculateRiskScore (profile true true "DEX" "unknown") 7 9 [])
    = Js.Num 24
  ∧ score (calculateRiskScore (profile true true "DEX" "medium") 7 9 [])
    = Js.Num 19.
Proof.
  split; [| repeat split; reflexivity].
  unfold Js.ObjectPrototype. rewrite !not_elem_of_cons.
  repeat split; try discriminate. apply not_elem_of_nil.
Qed.

(** ** The factor list on the page *)

Lemma maxPoints_of_factor_names :
  maxPoints "Audit Status" = Js.Num 25 ∧ maxPoints "Category" = Js.Num 20
  ∧ maxPoints "Risk Level" = Js.Num 20 ∧ maxPoints "Allowance" = Js.Num 20
  ∧ maxPoints "Known Exploits" = Js.Num 15.
Proof. repeat split; reflexivity. Qed.

(** X6.  The page prints each contribution over a maximum.  For a profile
    with plain keys every factor stays within the maximum printed for it,
    with one exception: the category "Unknown" contributes 25 and is
    printed over 20, because the table of maxima has no entry under the
    name "Category" and the fallback 20 is used. *)
Theorem printed_maximum
    (d : SpenderDetails) (a b : Z) (ex : list Exploit) :
  category d ∉ Js.ObjectPrototype →
  riskLevel d ∉ Js.ObjectPrototype →
  Forall (λ f, ∃ n m,
            contribution f = Js.Num n ∧ maxPoints (f_name f) = Js.Num m
            ∧ (n ≤ m ∨ (f_name f = "Category" ∧ category d = "Unknown"
                        ∧ n = 25 ∧ m = 20)))
         (factors (calculateRiskScore d a b ex))
  ∧ (category d = "Unknown" →
     factors (calculateRiskScore d a b ex) !! 1%nat
       = Some (mkRiskFactor "Category" "Unknown" (Js.Num 25))
     ∧ maxPoints "Category" = Js.Num 20).
Proof.
  intros Hc Hl. split.
  - unfold calculateRiskScore. cbn [factors].
    rewrite categoryRisk_plain, riskLevelScore_plain by done.
    pose proof (riskLevelPoints_bounds (riskLevel d)).
    destruct maxPoints_of_factor_names as (M1 & M2 & M3 & M4 & M5).
    repeat apply Forall_cons_2; [.. | apply Forall_nil_2].
    + unfold auditFactor. destruct (audited d), (isVerified d);
        cbn [contribution f_name]; rewrite M1; do 2 eexists;
        (split; [reflexivity |]); (split; [reflexivity |]); left; lia.
    + exists (categoryPoints (category d)), 20. cbn [contribution f_name].
      split; [done |]. split; [done |].
      unfold categoryPoints. repeat case_decide; try (left; lia).
      right. done.
    + exists (riskLevelPoints (riskLevel d)), 20. cbn [contribution f_name].
      split; [done |]. split; [done |]. left. lia.
    + unfold allowanceFactor.
      destruct (a =? maxUint256), (a >? b * 10), (a >? b);
        cbn [contribution f_name]; rewrite M4; do 2 eexists;
        (split; [reflexivity |]); (split; [reflexivity |]); left; lia.
    + unfold exploitFactor. destruct (0 <? length ex)%nat;
        cbn [contribution f_name]; rewrite M5; do 2 eexists;
        (split; [reflexivity |]); (split; [reflexivity |]); left; lia.
  - intros E. split; [| reflexivity].
    unfold calculateRiskScore. cbn [factors]. unfold categoryRisk.
    rewrite E. reflexivity.
Qed.

Lemma printed_maximum_witness :
  factors (calculateRiskScore (profile false false "Unknown" "high") 7 9 [])
    !! 1%nat
    = Some (mkRiskFactor "Category" "Unknown" (Js.Num 25))
  ∧ maxPoints "Category" = Js.Num 20.
Proof.
  apply (proj2 (printed_maximum (profile false false "Unknown" "high") 7 9 []
    ltac:(unfold Js.ObjectPrototype; cbn; rewrite !not_elem_of_cons;
          repeat split; try discriminate; apply not_elem_of_nil)
    ltac:(unfold Js.ObjectPrototype; cbn; rewrite !not_elem_of_cons;
          repeat split; try discriminate; apply not_elem_of_nil))).
  reflexivity.
Defined.

(** ** The registry of contracts *)

Section Registry.

Implicit Types (contracts : list Contract) (key : string).

Lemma last_snoc_filter {A} (P : A → Prop) `{∀ x, Decision (P x)}
    (l : list A) (x : A) :
  last (filter P (l ++ [x])) = if decide (P x) then Some x else last (filter P l).
Proof.
  rewrite filter_app. destruct (decide (P x)).
  - rewrite filter_cons_True, filter_nil by done. apply last_snoc.
  - rewrite filter_cons_False, filter_nil, app_nil_r by done. done.
Qed.

Lemma registerContract_lookup (m : gmap string Contract) (c : Contract) key :
  key ≠ "__proto__" →
  registerContract m c !! key
  = if String.eqb (toLowerCase (c_address c)) key then Some c else m !! key.
Proof.
  intros Hk. unfold registerContract.
  destruct (String.eqb_spec (toLowerCase (c_address c)) key) as [E | E].
  - rewrite decide_False by congruence. by rewrite E, lookup_insert_eq.
  - case_decide; [done |]. by rewrite lookup_insert_ne.
Qed.

(** After loading, a key other than [__proto__] holds the last contract of
    the file whose lower-cased address is the key. *)
Lemma loadContracts_lookup contracts key :
  key ≠ "__proto__" →
  loadContracts contracts !! key
  = last_such (λ c, String.eqb (toLowerCase (c_address c)) key) contracts.
Proof.
  intros Hk. unfold loadContracts, last_such.
  induction contracts as [| c contracts IH] using rev_ind; [done |].
  rewrite foldl_app, last_snoc_filter. cbn [foldl].
  rewrite registerContract_lookup, IH by done.
  destruct (String.eqb (toLowerCase (c_address c)) key).
  - by rewrite decide_True.
  - by rewrite decide_False.
Qed.

Lemma address_key_not_proto (s : Address) : toLowerCase (text s) ≠ "__proto__".
Proof.
  intros E. apply (address_key_not_inherited s). rewrite E.
  unfold Js.ObjectPrototype. set_solver.
Qed.

End Registry.

(** X7.  A spender whose address equals, up to letter case, the address of
    a contract of the registry file resolves to the fields of the last such
    contract, taken over as they are, and no external call is made. *)
Theorem registry_entry_is_authoritative
    (contracts : list Contract) (etherscan : Address → EtherscanReply)
    (spenderAddress : Address) (c : Contract) :
  last_such (λ c, String.eqb (toLowerCase (c_address c))
                    (toLowerCase (text spenderAddress))) contracts = Some c →
  getSpenderDetails (loadContracts contracts) etherscan spenderAddress
  = ([], detailsOf c).
Proof.
  intros Hc. unfold getSpenderDetails, getSpenderDetails_try.
  rewrite loadContracts_lookup by apply address_key_not_proto.
  rewrite Hc. reflexivity.
Qed.

Lemma registry_entry_is_authoritative_witness :
  getSpenderDetails
    (loadContracts
       [ mkContract "0xbbbbbbbbbbbbbbbbbbbbbbbbbbbbbbbbbbbbbbbb" "Old name" ""
           false "high" "Other" [] [] "" false;
         mkContract "0xAAAAAAAAAAAAAAAAAAAAAAAAAAAAAAAAAAAAAAAA" "Router" ""
           true "low" "DEX" [] [] "" true;
         mkContract "0xBBBBBBBBBBBBBBBBBBBBBBBBBBBBBBBBBBBBBBBB" "Vault" "Holds"
           true "medium" "Lending" ["r"] ["b"] "https://x" true ])
    (λ _, Rejected) addressB
  = ([], detailsOf
           (mkContract "0xBBBBBBBBBBBBBBBBBBBBBBBBBBBBBBBBBBBBBBBB" "Vault"
              "Holds" true "medium" "Lending" ["r"] ["b"] "https://x" true)).
Proof.
  apply (registry_entry_is_authoritative _ (λ _, Rejected) addressB).
  reflexivity.
Defined.

(** X8.  For a spender without registry entry the explorer is asked exactly
    once, and whatever it answers the profile is not audited, its category
    is "Other" or "Unknown", its risk level "unknown" or "high", and it is
    verified only when the answer carries source code. *)
Theorem unlisted_spender_never_audited
    (contractDatabase : gmap string Contract)
    (etherscan : Address → EtherscanReply) (spenderAddress : Address) :
  contractDatabase !! toLowerCase (text spenderAddress) = None →
  let run := getSpenderDetails contractDatabase etherscan spenderAddress in
  calls_of run = [HttpGetSourceCode spenderAddress]
  ∧ audited (value_of run) = false
  ∧ ((category (value_of run) = "Other" ∧ riskLevel (value_of run) = "unknown")
     ∨ value_of run = defaultDetails spenderAddress)
  ∧ (isVerified (value_of run) = true →
     ∃ ContractName SourceCode,
       etherscan spenderAddress = Result0 ContractName (Some SourceCode)
       ∧ SourceCode ≠ "").
Proof.
  intros Hdb run. subst run.
  unfold getSpenderDetails, getSpenderDetails_try. rewrite Hdb.
  destruct (etherscan spenderAddress) as [| | | cn sc] eqn:E; cbn;
    repeat split; try done; try (by right); try (by left).
  intros Hv. destruct sc as [[| ch src] |]; try done.
  exists cn, (String ch src). done.
Qed.

Lemma unlisted_spender_never_audited_witness :
  let run := getSpenderDetails ∅
               (λ _, Result0 (Some "SwapRouter02") (Some "contract C {}"))
               addressA in
  calls_of run = [HttpGetSourceCode addressA]
  ∧ audited (value_of run) = false
  ∧ ((category (value_of run) = "Other" ∧ riskLevel (value_of run) = "unknown")
     ∨ value_of run = defaultDetails addressA)
  ∧ (isVerified (value_of run) = true →
     ∃ ContractName SourceCode,
       Result0 (Some "SwapRouter02") (Some "contract C {}")
         = Result0 ContractName (Some SourceCode)
       ∧ SourceCode ≠ "").
Proof.
  apply (unlisted_spender_never_audited ∅
           (λ _, Result0 (Some "SwapRouter02") (Some "contract C {}"))
           addressA).
  reflexivity.
Defined.

(** X9.  An approval for a spender without registry entry is never shown
    in green, and its risk badge always has the class high-risk.  Whatever
    the explorer answers, the score is at least 52.  When the resulting
    profile is not verified (no answer, or an answer whose first result
    carries no source code, as the explorer's own error answer) the score
    is at least 65 and the score badge is red.  When the request is
    rejected, or the answer has no body or no result array, the profile is
    the default one and the score is at least 75. *)
Theorem unlisted_spender_is_flagged
    (contractDatabase : gmap string Contract)
    (etherscan : Address → EtherscanReply) (spenderAddress : Address)
    (a b : Z) (ex : list Exploit) :
  contractDatabase !! toLowerCase (text spenderAddress) = None →
  let d := value_of (getSpenderDetails contractDatabase etherscan
                       spenderAddress) in
  ∃ n, score (calculateRiskScore d a b ex) = Js.Num n
       ∧ 52 ≤ n ≤ 100
       ∧ riskScoreColor (Js.Num n) ≠ "#4CAF50"
       ∧ riskBadgeClass (riskLevel d) = "high-risk"
       ∧ (isVerified d = false →
          65 ≤ n ∧ riskScoreColor (Js.Num n) = "#FF5722")
       ∧ ((∀ ContractName SourceCode,
              etherscan spenderAddress ≠ Result0 ContractName SourceCode) →
          d = defaultDetails spenderAddress ∧ 75 ≤ n).
Proof.
  intros Hdb d. subst d.
  rewrite getSpenderDetails_value, getSpenderDetails_try_unlisted by done.
  destruct (allowanceFactor_points a b) as (c4 & E4 & ?).
  assert (Hcolor : ∀ n, 40 ≤ n → riskScoreColor (Js.Num n) ≠ "#4CAF50").
  { intros n Hn. unfold riskScoreColor.
    destruct (60 <=? n); [done |].
    destruct (Z.leb_spec 40 n); [done | lia]. }
  assert (Hred : ∀ n, 60 ≤ n → riskScoreColor (Js.Num n) = "#FF5722").
  { intros n Hn. unfold riskScoreColor.
    destruct (Z.leb_spec 60 n); [done | lia]. }
  destruct (etherscan spenderAddress) as [| | | cn sc] eqn:E.
  1-3: unfold calculateRiskScore; cbn [score contribution];
    rewrite E4, exploitFactor_points;
    destruct (0 <? length ex)%nat;
    cbn [Js.add Js.Math_min Js.to_number defaultDetails auditFactor audited
         isVerified contribution];
    (eexists; split; [reflexivity |]);
    change (categoryRisk (defaultDetails spenderAddress)) with (Js.Num 25);
    (split; [cbn; lia |]); (split; [apply Hcolor; cbn; lia |]);
    (split; [done |]);
    (split; [intros _; split; [cbn; lia | apply Hred; cbn; lia] |]);
    intros _; (split; [done | cbn; lia]).
  unfold calculateRiskScore. cbn [score contribution].
  rewrite E4, exploitFactor_points. unfold auditFactor. cbn [audited isVerified].
  destruct (truthy_str sc), (0 <? length ex)%nat;
    cbn [Js.add Js.Math_min Js.to_number contribution];
    (eexists; split; [reflexivity |]);
    (split; [cbn; lia |]); (split; [apply Hcolor; cbn; lia |]);
    (split; [done |]);
    (split; [intros Hv;
             first [discriminate Hv
                   | split; [cbn; lia | apply Hred; cbn; lia]] |]);
    intros Hno; by destruct (Hno cn sc).
Qed.

Lemma unlisted_spender_is_flagged_witness :
  let d := value_of (getSpenderDetails ∅ (λ _, Rejected) addressA) in
  ∃ n, score (calculateRiskScore d 5 100 []) = Js.Num n
       ∧ 52 ≤ n ≤ 100
       ∧ riskScoreColor (Js.Num n) ≠ "#4CAF50"
       ∧ riskBadgeClass (riskLevel d) = "high-risk"
       ∧ (isVerified d = false →
          65 ≤ n ∧ riskScoreColor (Js.Num n) = "#FF5722")
       ∧ ((∀ ContractName SourceCode,
              Rejected ≠ Result0 ContractName SourceCode) →
          d = defaultDetails addressA ∧ 75 ≤ n).
Proof.
  apply (unlisted_spender_is_flagged ∅ (λ _, Rejected) addressA 5 100 []).
  reflexivity.
Defined.

(** The three levels are reached: 75 without an answer, 65 at the
    explorer's error answer, 52 at an answer with source code. *)
Example unlisted_spender_scores :
  score (calculateRiskScore
           (value_of (getSpenderDetails ∅ (λ _, Rejected) addressA))
           5 100 []) = Js.Num 75
  ∧ score (calculateRiskScore
             (value_of (getSpenderDetails ∅ (λ _, Result0 None None)
                          addressA))
             5 100 []) = Js.Num 65
  ∧ score (calculateRiskScore
             (value_of (getSpenderDetails ∅
                          (λ _, Result0 (Some "SwapRouter02")
                                  (Some "contract C {}"))
                          addressA))
             5 100 []) = Js.Num 52.
Proof. repeat split; reflexivity. Qed.

(** ** The description of a contract name *)

Section Descriptions.

Implicit Types (s key name : string).

Lemma prefix_occurs key s :
  String.prefix key s = true ↔ ∃ after, s = key +:+ after.
Proof.
  revert s. induction key as [| c key IH]; intros s.
  - split; [intros _; exists s; reflexivity | intros _; by destruct s].
  - destruct s as [| c' s]; cbn.
    + split; [done | intros [after E]; discriminate].
    + destruct (Ascii.ascii_dec c c') as [-> | Hne].
      * rewrite IH. split; intros [after E]; exists after.
        -- by rewrite E.
        -- rewrite append_cons in E. by injection E.
      * split; [done |]. intros [after E]. rewrite append_cons in E.
        injection E as -> _. done.
Qed.

Lemma includes_occurs s key : includes s key = true ↔ occurs key s.
Proof.
  unfold occurs. induction s as [| c s IH].
  - cbn [includes]. rewrite orb_false_r, prefix_occurs. split.
    + intros [after E]. by exists "", after.
    + intros (before & after & E). destruct before; [by exists after |].
      discriminate.
  - cbn [includes]. rewrite orb_true_iff, prefix_occurs, IH. split.
    + intros [[after E] | (before & after & E)].
      * by exists "", after.
      * exists (String c before), after. by rewrite E.
    + intros (before & after & E). destruct before as [| c' before].
      * left. by exists after.
      * right. rewrite append_cons in E. injection E as -> E.
        by exists before, after.
Qed.

Lemma first_match_app name (entries1 entries2 : list (string * string)) :
  first_match name (entries1 ++ entries2)
  = match first_match name entries1 with
    | Some d => Some d
    | None => first_match name entries2
    end.
Proof.
  induction entries1 as [| [k d] entries1 IH]; [done |].
  cbn. by destruct (includes name k).
Qed.

Lemma first_match_none name (entries : list (string * string)) :
  (∀ k d, (k, d) ∈ entries → ¬ occurs k name) →
  first_match name entries = None.
Proof.
  induction entries as [| [k d] entries IH]; [done |].
  intros H. cbn. destruct (includes name k) eqn:E.
  - apply includes_occurs in E. exfalso; apply (H k d); [left | done].
  - apply IH. intros k' d' Hin. apply (H k' d'). by right.
Qed.

End Descriptions.

(** X10.  The description of a contract name is that of the first key of
    the table, in the order in which the table is written, that occurs
    somewhere in the name; a name in which no key occurs gets the generic
    sentence. *)
Theorem description_of_first_key
    (contractName key description : string)
    (earlier later : list (string * string)) :
  descriptions = earlier ++ (key, description) :: later →
  (∀ k d, (k, d) ∈ earlier → ¬ occurs k contractName) →
  (occurs key contractName →
     getApprovalDescription contractName = description)
  ∧ ((∀ k d, (k, d) ∈ descriptions → ¬ occurs k contractName) →
     getApprovalDescription contractName
     = "This contract can transfer your tokens.").
Proof.
  intros Ed Hearlier. unfold getApprovalDescription. split.
  - intros Hocc. rewrite Ed, first_match_app, first_match_none by done.
    cbn. apply includes_occurs in Hocc. by rewrite Hocc.
  - intros Hnone. by rewrite first_match_none.
Qed.

(** A name that holds both the third key and, after it, the first one. *)
Lemma description_of_first_key_witness :
  (occurs "SwapRouter" "SwapRouter of UniswapV2Router02" →
     getApprovalDescription "SwapRouter of UniswapV2Router02"
     = "Can swap your tokens on Uniswap")
  ∧ ((∀ k d, (k, d) ∈ descriptions →
        ¬ occurs k "SwapRouter of UniswapV2Router02") →
     getApprovalDescription "SwapRouter of UniswapV2Router02"
     = "This contract can transfer your tokens.").
Proof.
  split.
  - intros _.
    apply (description_of_first_key "SwapRouter of UniswapV2Router02"
             "UniswapV2Router" "Can swap your tokens on Uniswap"
             [("UniswapV3Router", "Can swap your tokens on Uniswap")]
             (drop 2 descriptions)).
    + reflexivity.
    + intros k d [= -> ->]%list_elem_of_singleton.
      rewrite <- includes_occurs. vm_compute. discriminate.
    + apply includes_occurs. reflexivity.
  - apply (description_of_first_key "SwapRouter of UniswapV2Router02"
             "UniswapV3Router" "Can swap your tokens on Uniswap"
             [] (drop 1 descriptions)).
    + reflexivity.
    + intros k d Hin. by apply elem_of_nil in Hin.
Defined.

(** ** The registry of exploits *)

Section ExploitRegistry.

Implicit Types (db : gmap string (list Exploit)) (L : string → list Exploit)
  (e : Exploit) (c key : string).

Lemma listing_cons key e (exploits : list Exploit) :
  listing key (e :: exploits)
  = mentions key e (affectedContracts e) ++ listing key exploits.
Proof. reflexivity. Qed.

Lemma listing_app key (l1 l2 : list Exploit) :
  listing key (l1 ++ l2) = listing key l1 ++ listing key l2.
Proof. unfold listing. apply bind_app. Qed.

Lemma mentions_nil key e (contracts : list string) :
  mentions key e contracts = [] ↔ ∀ c, c ∈ contracts → toLowerCase c ≠ key.
Proof.
  unfold mentions. induction contracts as [| c contracts IH]; [set_solver |].
  rewrite bind_cons, app_nil, IH. split.
  - intros [H1 H2] c' [-> | Hin]%elem_of_cons; [| by apply H2].
    by case_decide.
  - intros H. split; [| intros c' Hin; apply H; by right].
    rewrite decide_False; [done |]. apply H. left.
Qed.

Lemma listing_nil key (exploits : list Exploit) :
  listing key exploits = []
  ↔ ∀ e c, e ∈ exploits → c ∈ affectedContracts e → toLowerCase c ≠ key.
Proof.
  induction exploits as [| e exploits IH]; [set_solver |].
  rewrite listing_cons, app_nil, mentions_nil, IH. split.
  - intros [H1 H2] e' c [-> | Hin]%elem_of_cons; [apply H1 | by apply H2].
  - intros H. split; [intros c; apply H; left |].
    intros e' c Hin. apply H. by right.
Qed.

Lemma mentions_cons key e c (contracts : list string) :
  mentions key e (c :: contracts)
  = mentions key e [c] ++ mentions key e contracts.
Proof.
  unfold mentions. rewrite (bind_cons _ c contracts), bind_singleton. done.
Qed.

Lemma represents_empty : represents ∅ (λ _, []).
Proof. intros key. by rewrite lookup_empty. Qed.

Lemma registerExploit_plain e db c L :
  represents db L → toLowerCase c ∉ Js.ObjectPrototype →
  ∃ db', registerExploit e db c = Some db'
         ∧ represents db' (λ key, L key ++ mentions key e [c]).
Proof.
  intros Hdb Hc. unfold registerExploit, Js.get.
  pose proof (Hdb (toLowerCase c)) as Hkey.
  assert (Hstep : ∀ key, mentions key e [c]
                         = if decide (toLowerCase c = key) then [e] else []).
  { intros key. unfold mentions. rewrite bind_singleton. done. }
  destruct (db !! toLowerCase c) as [listed |] eqn:E.
  - eexists. split; [reflexivity |]. intros key. rewrite Hstep.
    destruct (decide (toLowerCase c = key)) as [<- | Hne].
    + rewrite lookup_insert_eq. rewrite decide_False by (by destruct (L _)).
      destruct (decide (L (toLowerCase c) = [])); [done |]. congruence.
    + rewrite lookup_insert_ne, app_nil_r by done. apply Hdb.
  - rewrite bool_decide_eq_false_2 by done.
    eexists. split; [reflexivity |]. intros key. rewrite Hstep.
    destruct (decide (toLowerCase c = key)) as [<- | Hne].
    + rewrite lookup_insert_eq.
      destruct (decide (L (toLowerCase c) = [])) as [-> | ?]; done.
    + rewrite lookup_insert_ne, app_nil_r by done. apply Hdb.
Qed.

Lemma forEachContract_plain e (contracts : list string) db L :
  represents db L →
  (∀ c, c ∈ contracts → toLowerCase c ∉ Js.ObjectPrototype) →
  ∃ db', forEachContract e contracts db = (db', true)
         ∧ represents db' (λ key, L key ++ mentions key e contracts).
Proof.
  revert db L. induction contracts as [| c contracts IH]; intros db L Hdb Hp.
  - exists db. split; [done |]. intros key. cbn. rewrite app_nil_r. apply Hdb.
  - destruct (registerExploit_plain e db c L Hdb) as (db1 & E1 & H1).
    { apply Hp. left. }
    destruct (IH db1 _ H1) as (db' & E' & H').
    { intros c' Hin. apply Hp. by right. }
    exists db'. cbn [forEachContract]. rewrite E1. split; [done |].
    intros key. rewrite (H' key).
    by rewrite (mentions_cons key e c contracts), !app_assoc.
Qed.

Lemma forEachExploit_plain (exploits : list Exploit) db L :
  represents db L → plainContracts exploits →
  ∃ db', forEachExploit exploits db = (db', true)
         ∧ represents db' (λ key, L key ++ listing key exploits).
Proof.
  revert db L. induction exploits as [| e exploits IH]; intros db L Hdb Hp.
  - exists db. split; [done |]. intros key. cbn. rewrite app_nil_r. apply Hdb.
  - destruct (forEachContract_plain e (affectedContracts e) db L Hdb)
      as (db1 & E1 & H1).
    { intros c Hin. apply (Hp e c); [left | done]. }
    destruct (IH db1 _ H1) as (db' & E' & H').
    { intros e' c Hin. apply Hp. by right. }
    exists db'. cbn [forEachExploit]. rewrite E1. split; [done |].
    intros key. rewrite (H' key), listing_cons. by rewrite !app_assoc.
Qed.

Lemma forEachContract_app e (l1 l2 : list string) db :
  forEachContract e (l1 ++ l2) db
  = match forEachContract e l1 db with
    | (db', true) => forEachContract e l2 db'
    | stopped => stopped
    end.
Proof.
  revert db. induction l1 as [| c l1 IH]; intros db; [done |].
  cbn. destruct (registerExploit e db c); [apply IH | done].
Qed.

Lemma forEachExploit_app (l1 l2 : list Exploit) db :
  forEachExploit (l1 ++ l2) db
  = match forEachExploit l1 db with
    | (db', true) => forEachExploit l2 db'
    | stopped => stopped
    end.
Proof.
  revert db. induction l1 as [| e l1 IH]; intros db; [done |].
  cbn. destruct (forEachContract e (affectedContracts e) db) as [db1 []];
    [apply IH | done].
Qed.

Lemma checkForExploits_represents db L (s : Address) :
  represents db L →
  checkForExploits db s = L (toLowerCase (text s)).
Proof.
  intros Hdb. unfold checkForExploits. rewrite (Hdb _).
  by destruct (decide (L (toLowerCase (text s)) = [])) as [-> | ?].
Qed.

End ExploitRegistry.

(** X11.  When no affected contract of the file is, lower-cased, the name
    of an [Object.prototype] member, loading runs to its end, and the
    exploits found for a spender are exactly the exploits of the file that
    list its address up to letter case, in file order, once per mention;
    none is found exactly when no exploit lists the address. *)
Theorem exploits_found_by_address
    (exploits : list Exploit) (spenderAddress : Address) :
  plainContracts exploits →
  (forEachExploit exploits ∅).2 = true
  ∧ checkForExploits (loadExploits exploits) spenderAddress
    = listing (toLowerCase (text spenderAddress)) exploits
  ∧ (checkForExploits (loadExploits exploits) spenderAddress = []
     ↔ ∀ exploit contract, exploit ∈ exploits →
         contract ∈ affectedContracts exploit →
         toLowerCase contract ≠ toLowerCase (text spenderAddress)).
Proof.
  intros Hp.
  destruct (forEachExploit_plain exploits ∅ _ represents_empty Hp)
    as (db & E & Hdb).
  unfold loadExploits. rewrite E. cbn [fst snd].
  rewrite (checkForExploits_represents _ _ _ Hdb). cbn [app].
  split; [done |]. split; [done |]. apply listing_nil.
Qed.

Lemma exploits_found_by_address_witness :
  (forEachExploit
     [ mkExploit "First" "2021-01-01"
         [ "0xaaaaaaaaaaaaaaaaaaaaaaaaaaaaaaaaaaaaaaaa";
           "0xBBBBBBBBBBBBBBBBBBBBBBBBBBBBBBBBBBBBBBBB" ];
       mkExploit "Second" "2022-02-02"
         [ "0xbbbbbbbbbbbbbbbbbbbbbbbbbbbbbbbbbbbbbbbb" ] ] ∅).2 = true
  ∧ checkForExploits
      (loadExploits
         [ mkExploit "First" "2021-01-01"
             [ "0xaaaaaaaaaaaaaaaaaaaaaaaaaaaaaaaaaaaaaaaa";
               "0xBBBBBBBBBBBBBBBBBBBBBBBBBBBBBBBBBBBBBBBB" ];
           mkExploit "Second" "2022-02-02"
             [ "0xbbbbbbbbbbbbbbbbbbbbbbbbbbbbbbbbbbbbbbbb" ] ]) addressB
    = [ mkExploit "First" "2021-01-01"
          [ "0xaaaaaaaaaaaaaaaaaaaaaaaaaaaaaaaaaaaaaaaa";
            "0xBBBBBBBBBBBBBBBBBBBBBBBBBBBBBBBBBBBBBBBB" ];
        mkExploit "Second" "2022-02-02"
          [ "0xbbbbbbbbbbbbbbbbbbbbbbbbbbbbbbbbbbbbbbbb" ] ].
Proof.
  pose proof (exploits_found_by_address
    [ mkExploit "First" "2021-01-01"
        [ "0xaaaaaaaaaaaaaaaaaaaaaaaaaaaaaaaaaaaaaaaa";
          "0xBBBBBBBBBBBBBBBBBBBBBBBBBBBBBBBBBBBBBBBB" ];
      mkExploit "Second" "2022-02-02"
        [ "0xbbbbbbbbbbbbbbbbbbbbbbbbbbbbbbbbbbbbbbbb" ] ] addressB) as H.
  destruct H as (H1 & H2 & _).
  - intros e c He Hc.
    rewrite !elem_of_cons, elem_of_nil in He.
    destruct He as [-> | [-> | []]]; cbn [affectedContracts] in Hc;
      rewrite !elem_of_cons, elem_of_nil in Hc;
      repeat (destruct Hc as [-> | Hc]); try done;
      unfold Js.ObjectPrototype; cbn; rewrite !not_elem_of_cons;
      repeat split; try discriminate; apply not_elem_of_nil.
  - split; [exact H1 | exact H2].
Defined.

(** X12.  Loading the exploits stops at the first affected contract that
    is, lower-cased, the name of an [Object.prototype] member: what was
    stored before stays, and neither the rest of that exploit's contracts
    nor any later exploit is ever found. *)
Theorem loading_stops_at_inherited_name
    (before after : list Exploit) (exploit : Exploit)
    (cbefore cafter : list string) (bad : string) (spenderAddress : Address) :
  plainContracts before →
  (∀ c, c ∈ cbefore → toLowerCase c ∉ Js.ObjectPrototype) →
  affectedContracts exploit = cbefore ++ bad :: cafter →
  toLowerCase bad ∈ Js.ObjectPrototype →
  (forEachExploit (before ++ exploit :: after) ∅).2 = false
  ∧ checkForExploits (loadExploits (before ++ exploit :: after)) spenderAddress
    = listing (toLowerCase (text spenderAddress)) before
      ++ mentions (toLowerCase (text spenderAddress)) exploit cbefore.
Proof.
  intros Hp Hcp Haff Hbad.
  destruct (forEachExploit_plain before ∅ _ represents_empty Hp)
    as (db1 & E1 & H1).
  destruct (forEachContract_plain exploit cbefore db1 _ H1 Hcp)
    as (db2 & E2 & H2).
  assert (Estop : forEachExploit (before ++ exploit :: after) ∅ = (db2, false)).
  { rewrite forEachExploit_app, E1. cbn [forEachExploit].
    rewrite Haff, forEachContract_app, E2. cbn [forEachContract].
    unfold registerExploit, Js.get. rewrite (H2 (toLowerCase bad)).
    rewrite decide_True.
    - by rewrite bool_decide_eq_true_2.
    - cbn [app]. apply app_nil. split.
      + apply listing_nil. intros e c He Hc E.
        apply (Hp e c He Hc). by rewrite E.
      + apply mentions_nil. intros c Hc E. apply (Hcp c Hc). by rewrite E. }
  unfold loadExploits. rewrite Estop. cbn [fst snd]. split; [done |].
  by rewrite (checkForExploits_represents _ _ _ H2).
Qed.

Lemma loading_stops_at_inherited_name_witness :
  (forEachExploit
     ([] ++ mkExploit "First" "2021-01-01"
              [ "0xBBBBBBBBBBBBBBBBBBBBBBBBBBBBBBBBBBBBBBBB"; "Constructor";
                "0xaaaaaaaaaaaaaaaaaaaaaaaaaaaaaaaaaaaaaaaa" ]
         :: [ mkExploit "Second" "2022-02-02"
                [ "0xaaaaaaaaaaaaaaaaaaaaaaaaaaaaaaaaaaaaaaaa" ] ]) ∅).2 = false
  ∧ checkForExploits
      (loadExploits
         ([] ++ mkExploit "First" "2021-01-01"
                  [ "0xBBBBBBBBBBBBBBBBBBBBBBBBBBBBBBBBBBBBBBBB"; "Constructor";
                    "0xaaaaaaaaaaaaaaaaaaaaaaaaaaaaaaaaaaaaaaaa" ]
             :: [ mkExploit "Second" "2022-02-02"
                    [ "0xaaaaaaaaaaaaaaaaaaaaaaaaaaaaaaaaaaaaaaaa" ] ]))
      addressA
    = [].
Proof.
  apply (loading_stops_at_inherited_name []
           [ mkExploit "Second" "2022-02-02"
               [ "0xaaaaaaaaaaaaaaaaaaaaaaaaaaaaaaaaaaaaaaaa" ] ]
           (mkExploit "First" "2021-01-01"
              [ "0xBBBBBBBBBBBBBBBBBBBBBBBBBBBBBBBBBBBBBBBB"; "Constructor";
                "0xaaaaaaaaaaaaaaaaaaaaaaaaaaaaaaaaaaaaaaaa" ])
           [ "0xBBBBBBBBBBBBBBBBBBBBBBBBBBBBBBBBBBBBBBBB" ]
           [ "0xaaaaaaaaaaaaaaaaaaaaaaaaaaaaaaaaaaaaaaaa" ]
           "Constructor" addressA).
  - intros e c He. by apply elem_of_nil in He.
  - intros c ->%list_elem_of_singleton.
    unfold Js.ObjectPrototype; cbn; rewrite !not_elem_of_cons;
      repeat split; try discriminate; apply not_elem_of_nil.
  - reflexivity.
  - cbn. unfold Js.ObjectPrototype. left.
Defined.

(** ** More on the scan *)

Lemma calls_of_mapM {A B} (f : A → Eff B) (l : list A) :
  calls_of (mapM f l) = l ≫= (λ x, calls_of (f x)).
Proof.
  induction l as [| x l IH]; [done |].
  change (mapM f (x :: l)) with (y ← f x; k ← mapM f l; mret (y :: k)).
  rewrite !calls_of_bind, calls_of_ret, app_nil_r, bind_cons. by rewrite IH.
Qed.

Lemma Map_set_length {V} (k : string) (v : V) (m : list (string * V)) :
  (length (Map_set k v m) ≤ S (length m))%nat.
Proof.
  induction m as [| [k' v'] m IH]; cbn; [lia |].
  destruct (decide (k' = k)); cbn; lia.
Qed.

Lemma collectApprovals_length (logs : list Log) :
  (length (Map_values (collectApprovals logs)) ≤ length logs)%nat.
Proof.
  unfold Map_values. rewrite length_fmap. unfold collectApprovals.
  induction logs as [| log logs IH] using rev_ind; [done |].
  rewrite foldl_app, length_app. cbn. unfold recordLog at 1.
  destruct (parsed_spender log); [| lia].
  etrans; [apply Map_set_length | lia].
Qed.

Lemma pairText_inj (c1 c2 : Approval) : pairText c1 = pairText c2 → c1 = c2.
Proof.
  destruct c1, c2. unfold pairText. cbn. intros [= E1 E2].
  apply text_inj in E1, E2. by subst.
Qed.

Section ScanAccounts.

Variable contractDatabase : gmap string Contract.
Variable exploitDatabase : gmap string (list Exploit).
Variable etherscan : Address → EtherscanReply.
Variable isAddress : string → bool.
Variable zeroPadValue32 : string → option string.
Variable formatUnits : Z → Z → option string.
Variable getLogs : string → option (list Log).
Variable allowance : Address → string → Address → option Z.
Variable token_name : Address → option string.
Variable token_symbol : Address → option string.
Variable token_decimals : Address → option Z.
Variable balanceOf : Address → string → option Z.

Local Abbreviation resolve :=
  (resolveApproval contractDatabase exploitDatabase etherscan formatUnits
     allowance token_name token_symbol token_decimals balanceOf).
Local Abbreviation handler :=
  (approvals_handler contractDatabase exploitDatabase etherscan isAddress
     zeroPadValue32 formatUnits getLogs allowance token_name token_symbol
     token_decimals balanceOf).
Local Abbreviation can_read :=
  (readable allowance token_name token_symbol token_decimals balanceOf).
Local Abbreviation can_resolve :=
  (resolvable formatUnits allowance token_name token_symbol token_decimals
     balanceOf).

Lemma resolveApproval_value (owner : string) (c : Approval) :
  if can_resolve owner c
  then ∃ r, value_of (resolve owner c) = Some r ∧ shownPair r = pairText c
  else value_of (resolve owner c) = None.
Proof.
  unfold resolvable, readable, resolveApproval. rewrite value_of_bind.
  destruct (allowance (tokenAddress c) owner (spender c)) as [a |]; [| done].
  destruct (a >? 0); [| done]. rewrite !value_of_bind.
  destruct (token_name (tokenAddress c)), (token_symbol (tokenAddress c)),
    (token_decimals (tokenAddress c)) as [decimals |],
    (balanceOf (tokenAddress c) owner) as [balance |];
    cbn [andb]; try done.
  all: repeat (rewrite bool_decide_eq_true_2 by eauto);
       repeat (rewrite bool_decide_eq_false_2 by (by intros [? ?]));
       cbn [andb]; try done.
  rewrite value_of_bind.
  destruct (formatUnits a decimals), (formatUnits balance decimals);
    repeat (rewrite bool_decide_eq_true_2 by eauto);
    repeat (rewrite bool_decide_eq_false_2 by (by intros [? ?]));
    cbn [andb]; try done.
  rewrite value_of_ret. eexists. split; reflexivity.
Qed.

Lemma shown_pairs (owner : string) (l : list Approval) :
  shownPair <$> omap (λ c, value_of (resolve owner c)) l
  = pairText <$> filter (λ c, can_resolve owner c = true) l.
Proof.
  induction l as [| c l IH]; [done |].
  pose proof (resolveApproval_value owner c) as Hc.
  change (omap ?f (c :: l)) with
    (match f c with Some z => z :: omap f l | None => omap f l end).
  destruct (can_resolve owner c) eqn:E.
  - destruct Hc as (r & -> & Hr). rewrite filter_cons_True by done.
    rewrite !fmap_cons, IH. by rewrite Hr.
  - rewrite Hc, filter_cons_False by (by rewrite E). done.
Qed.

(** The calls of one candidate: the explorer is asked as soon as the four
    reads have succeeded, before the amounts are formatted. *)
Lemma resolveApproval_calls (owner : string) (c : Approval) :
  calls_of (resolve owner c)
  = RpcAllowance (tokenAddress c) owner (spender c)
    :: (if active allowance owner c then
          [ RpcName (tokenAddress c); RpcSymbol (tokenAddress c);
            RpcDecimals (tokenAddress c); RpcBalanceOf (tokenAddress c) owner ]
          ++ (if can_read owner c
              then calls_of (getSpenderDetails contractDatabase etherscan
                               (spender c))
              else [])
        else []).
Proof.
  unfold readable, active, resolveApproval. rewrite calls_of_bind.
  cbn [call calls_of value_of fst snd app].
  destruct (allowance (tokenAddress c) owner (spender c)) as [a |]; [| done].
  destruct (a >? 0); [| done]. rewrite !calls_of_bind.
  cbn [call calls_of value_of fst snd app andb]. do 5 f_equal.
  destruct (token_name (tokenAddress c)), (token_symbol (tokenAddress c)),
    (token_decimals (tokenAddress c)) as [decimals |],
    (balanceOf (tokenAddress c) owner) as [balance |];
    repeat (rewrite bool_decide_eq_true_2 by eauto);
    repeat (rewrite bool_decide_eq_false_2 by (by intros [? ?]));
    cbn [andb]; try done.
  rewrite calls_of_bind.
  destruct (formatUnits a decimals), (formatUnits balance decimals);
    cbn; by rewrite app_nil_r.
Qed.

(** A candidate with a rejected read cannot be resolved. *)
Lemma failed_read_not_resolvable (owner : string) (c : Approval) :
  allowance (tokenAddress c) owner (spender c) = None
  ∨ token_name (tokenAddress c) = None
  ∨ token_symbol (tokenAddress c) = None
  ∨ token_decimals (tokenAddress c) = None
  ∨ balanceOf (tokenAddress c) owner = None →
  can_resolve owner c = false.
Proof.
  unfold resolvable, readable.
  intros [E | [E | [E | [E | E]]]]; rewrite E;
    destruct (allowance (tokenAddress c) owner (spender c)); try done;
    repeat (rewrite (bool_decide_eq_false_2 (is_Some None))
              by (by intros [? ?]));
    rewrite ?andb_false_r; try done.
Qed.

Lemma resolvable_readable (owner : string) (c : Approval) :
  can_resolve owner c = true → can_read owner c = true.
Proof. unfold resolvable. by intros [? _]%andb_true_iff. Qed.

Lemma readable_active (owner : string) (c : Approval) :
  can_read owner c = true → active allowance owner c = true.
Proof.
  unfold readable, active.
  destruct (allowance (tokenAddress c) owner (spender c)); [| done].
  by destruct (_ >? _).
Qed.

End ScanAccounts.

Lemma count_bind {A B} (P : B → bool) (Q : A → bool) (f : A → list B)
    (l : list A) :
  (∀ x, length (filter (λ y, P y = true) (f x)) = if Q x then 1%nat else 0%nat) →
  length (filter (λ y, P y = true) (l ≫= f))
  = length (filter (λ x, Q x = true) l).
Proof.
  intros Hf. induction l as [| x l IH]; [done |].
  rewrite bind_cons, filter_app, length_app, IH, Hf.
  destruct (Q x) eqn:E.
  - by rewrite filter_cons_True.
  - by rewrite filter_cons_False by (by rewrite E).
Qed.

Lemma getSpenderDetails_calls (contractDatabase : gmap string Contract)
    (etherscan : Address → EtherscanReply) (s : Address) :
  calls_of (getSpenderDetails contractDatabase etherscan s)
  = match contractDatabase !! toLowerCase (text s) with
    | Some _ => []
    | None => [HttpGetSourceCode s]
    end.
Proof.
  unfold getSpenderDetails, getSpenderDetails_try. rewrite calls_of_bind.
  destruct (contractDatabase !! toLowerCase (text s)).
  - done.
  - rewrite calls_of_bind. cbn [call calls_of value_of fst snd app].
    by destruct (etherscan s).
Qed.

Section ScanTheorems.

Variable contractDatabase : gmap string Contract.
Variable exploitDatabase : gmap string (list Exploit).
Variable etherscan : Address → EtherscanReply.
Variable isAddress : string → bool.
Variable zeroPadValue32 : string → option string.
Variable formatUnits : Z → Z → option string.
Variable getLogs : string → option (list Log).
Variable allowance : Address → string → Address → option Z.
Variable token_name : Address → option string.
Variable token_symbol : Address → option string.
Variable token_decimals : Address → option Z.
Variable balanceOf : Address → string → option Z.

Local Abbreviation resolve :=
  (resolveApproval contractDatabase exploitDatabase etherscan formatUnits
     allowance token_name token_symbol token_decimals balanceOf).
Local Abbreviation handler :=
  (approvals_handler contractDatabase exploitDatabase etherscan isAddress
     zeroPadValue32 formatUnits getLogs allowance token_name token_symbol
     token_decimals balanceOf).
Local Abbreviation can_read :=
  (readable allowance token_name token_symbol token_decimals balanceOf).
Local Abbreviation can_resolve :=
  (resolvable formatUnits allowance token_name token_symbol token_decimals
     balanceOf).

Variables (body : RequestBody) (owner addressTopic : string) (logs : list Log).
Hypothesis valid_owner : validOwner isAddress (walletAddress body) = Some owner.
Hypothesis chain_accepted :
  truthy_json (chainId body) && strict_ne_1 (chainId body) = false.
Hypothesis topic_built : zeroPadValue32 owner = Some addressTopic.
Hypothesis logs_read : getLogs addressTopic = Some logs.

Lemma handler_value :
  value_of (handler body)
  = Status200
      (length (omap (λ c, value_of (resolve owner c))
                    (Map_values (collectApprovals logs))))
      (omap (λ c, value_of (resolve owner c))
            (Map_values (collectApprovals logs))).
Proof.
  rewrite (handler_scan contractDatabase exploitDatabase etherscan isAddress
             zeroPadValue32 formatUnits getLogs allowance token_name
             token_symbol token_decimals balanceOf body owner valid_owner
             chain_accepted).
  by rewrite topic_built, logs_read.
Qed.

Lemma handler_calls :
  calls_of (handler body)
  = RpcGetLogs addressTopic
    :: (Map_values (collectApprovals logs) ≫= λ c, calls_of (resolve owner c)).
Proof.
  unfold approvals_handler.
  rewrite valid_owner, chain_accepted, topic_built, calls_of_bind.
  cbn [call calls_of value_of fst snd app]. rewrite logs_read.
  by rewrite calls_of_bind, calls_of_ret, app_nil_r, calls_of_mapM.
Qed.

Lemma handler_shown_pairs :
  shownPair <$> omap (λ c, value_of (resolve owner c))
                     (Map_values (collectApprovals logs))
  = pairText <$> filter (λ c, can_resolve owner c = true)
                        (Map_values (collectApprovals logs)).
Proof. apply shown_pairs. Qed.

(** X13.  Once the request has passed the two guards and the logs have been
    read, the answer is a success whatever happens to the single
    candidates: a candidate one of whose five reads is rejected is absent
    from the list, every candidate that can be resolved is listed all the
    same, and the list is no longer than the list of distinct pairs, which
    is no longer than the list of logs. *)
Theorem candidate_failures_are_isolated :
  ∃ approvals,
    value_of (handler body) = Status200 (length approvals) approvals
    ∧ (length approvals ≤ length (Map_values (collectApprovals logs)))%nat
    ∧ (length (Map_values (collectApprovals logs)) ≤ length logs)%nat
    ∧ (∀ c : Approval,
         allowance (tokenAddress c) owner (spender c) = None
         ∨ token_name (tokenAddress c) = None
         ∨ token_symbol (tokenAddress c) = None
         ∨ token_decimals (tokenAddress c) = None
         ∨ balanceOf (tokenAddress c) owner = None →
         pairText c ∉ shownPair <$> approvals)
    ∧ (∀ c : Approval,
         c ∈ Map_values (collectApprovals logs) →
         can_resolve owner c = true →
         pairText c ∈ shownPair <$> approvals).
Proof.
  eexists. split; [apply handler_value |].
  rewrite handler_shown_pairs. repeat split.
  - rewrite <- (length_fmap shownPair), handler_shown_pairs, length_fmap.
    apply length_filter.
  - apply collectApprovals_length.
  - intros c Hfail (c' & E & Hin)%list_elem_of_fmap.
    apply pairText_inj in E as <-.
    apply list_elem_of_filter in Hin as [Hr _].
    by rewrite (failed_read_not_resolvable formatUnits allowance token_name
                  token_symbol token_decimals balanceOf owner c Hfail) in Hr.
  - intros c Hin Hr. apply list_elem_of_fmap. exists c. split; [done |].
    by apply list_elem_of_filter.
Qed.

(** X14.  In a successful answer no (token, spender) pair is shown twice,
    and a pair is shown exactly when some decoded log of the owner grants
    it, its allowance is above zero, its four token reads succeed and both
    amounts can be formatted with the token's decimals. *)
Theorem listed_pairs_exactly :
  ∃ count approvals,
    value_of (handler body) = Status200 count approvals
    ∧ NoDup (shownPair <$> approvals)
    ∧ ∀ c : Approval,
        pairText c ∈ shownPair <$> approvals
        ↔ can_resolve owner c = true
          ∧ ∃ log, log ∈ logs ∧ parsed_spender log = Some (spender c)
                   ∧ log_address log = tokenAddress c.
Proof.
  do 2 eexists. split; [apply handler_value |].
  rewrite handler_shown_pairs.
  destruct (collectApprovals_invariant logs) as [Hk Hnd].
  split.
  - apply NoDup_fmap_2_strong.
    + intros c1 c2 _ _. apply pairText_inj.
    + apply NoDup_filter. by apply keyed_values_NoDup.
  - intros c. rewrite list_elem_of_fmap. split.
    + intros (c' & E & Hin). apply pairText_inj in E as <-.
      apply list_elem_of_filter in Hin as [Hr Hin].
      split; [done |]. by apply collectApprovals_origin.
    + intros (Hr & log & Hin & Hs & Ht). exists c. split; [done |].
      apply list_elem_of_filter. split; [done |].
      destruct c as [t s]. cbn in Hs, Ht. subst t.
      by apply collectApprovals_contains.
Qed.

(** X15.  What a scan costs: one log query, made first; one allowance read
    for each distinct pair; one name read for each pair whose allowance is
    above zero; and one explorer request for each pair whose allowance is
    above zero, whose four token reads succeed and whose spender has no
    registry entry, whether or not the pair ends up in the list. *)
Theorem scan_calls_accounted :
  head (calls_of (handler body)) = Some (RpcGetLogs addressTopic)
  ∧ length (filter (λ c, is_getLogs_call c = true) (calls_of (handler body)))
    = 1%nat
  ∧ length (filter (λ c, is_allowance_call c = true) (calls_of (handler body)))
    = length (Map_values (collectApprovals logs))
  ∧ length (filter (λ c, is_name_call c = true) (calls_of (handler body)))
    = length (filter (λ c, active allowance owner c = true)
                (Map_values (collectApprovals logs)))
  ∧ length (filter (λ c, is_explorer_call c = true) (calls_of (handler body)))
    = length (filter
                (λ c, can_read owner c
                      && bool_decide
                           (contractDatabase !! toLowerCase (text (spender c))
                            = None) = true)
                (Map_values (collectApprovals logs))).
Proof.
  rewrite handler_calls. split; [done |].
  pose proof (readable_active allowance token_name token_symbol token_decimals
                balanceOf owner) as Hactive.
  repeat split.
  - rewrite filter_cons_True by done. cbn [length]. f_equal.
    rewrite (count_bind _ (λ _, false)).
    + induction (Map_values _) as [| c l IH]; [done |].
      by rewrite filter_cons_False.
    + intros c. rewrite resolveApproval_calls, getSpenderDetails_calls.
      destruct (active allowance owner c), (can_read owner c),
        (contractDatabase !! toLowerCase (text (spender c))); reflexivity.
  - rewrite filter_cons_False by done.
    rewrite (count_bind _ (λ _, true)).
    + induction (Map_values _) as [| c l IH]; [done |].
      rewrite filter_cons_True by done. cbn. by rewrite IH.
    + intros c. rewrite resolveApproval_calls, getSpenderDetails_calls.
      destruct (active allowance owner c), (can_read owner c),
        (contractDatabase !! toLowerCase (text (spender c))); reflexivity.
  - rewrite filter_cons_False by done.
    apply count_bind. intros c.
    rewrite resolveApproval_calls, getSpenderDetails_calls.
    destruct (active allowance owner c), (can_read owner c),
      (contractDatabase !! toLowerCase (text (spender c))); reflexivity.
  - rewrite filter_cons_False by done.
    apply count_bind. intros c.
    rewrite resolveApproval_calls, getSpenderDetails_calls.
    pose proof (Hactive c) as Ha.
    destruct (can_read owner c).
    + rewrite Ha by done.
      destruct (contractDatabase !! toLowerCase (text (spender c))) eqn:E.
      * by rewrite bool_decide_eq_false_2.
      * by rewrite bool_decide_eq_true_2.
    + by destruct (active allowance owner c).
Qed.

End ScanTheorems.

(** In the chain with failing reads the pair (A, B) is listed, the pair
    (C, B), whose name read is rejected, is not. *)
Lemma candidate_failures_are_isolated_witness :
  ∃ approvals,
    value_of (failingWorld (mkRequestBody (JString sampleOwner) JNull))
      = Status200 (length approvals) approvals
    ∧ (pairText (mkApproval addressC addressB) ∉ shownPair <$> approvals)
    ∧ (pairText (mkApproval addressA addressB) ∈ shownPair <$> approvals).
Proof.
  unfold failingWorld.
  destruct (candidate_failures_are_isolated ∅ ∅ (λ _, Rejected)
              is_address_literal
              (λ s, Some ("0x" +:+ padStart 64 "0" (slice 2 s)))
              failingFormat (λ _, Some failingLogs) (λ _ _ _, Some 5)
              failingName (λ _, Some "TKN") failingDecimals (λ _ _, Some 100)
              (mkRequestBody (JString sampleOwner) JNull) sampleOwner
              "0x00000000000000000000000000000000000000000000000000000000000000f1"
              failingLogs eq_refl eq_refl eq_refl eq_refl)
    as (approvals & Hv & _ & _ & Hout & Hin).
  exists approvals. split; [exact Hv |]. split.
  - apply Hout. right. left. reflexivity.
  - apply Hin; [left | reflexivity].
Defined.

Lemma listed_pairs_exactly_witness :
  ∃ count approvals,
    value_of (failingWorld (mkRequestBody (JString sampleOwner) JNull))
      = Status200 count approvals
    ∧ NoDup (shownPair <$> approvals)
    ∧ ∀ c : Approval,
        pairText c ∈ shownPair <$> approvals
        ↔ resolvable failingFormat (λ _ _ _, Some 5) failingName
            (λ _, Some "TKN") failingDecimals (λ _ _, Some 100)
            sampleOwner c = true
          ∧ ∃ log, log ∈ failingLogs
                   ∧ parsed_spender log = Some (spender c)
                   ∧ log_address log = tokenAddress c.
Proof.
  unfold failingWorld.
  apply (listed_pairs_exactly _ _ _ _ _ _ _ _ _ _ _ _
           (mkRequestBody (JString sampleOwner) JNull) sampleOwner
           "0x00000000000000000000000000000000000000000000000000000000000000f1"
           failingLogs);
    reflexivity.
Defined.

(** Three candidates; the name read of one is rejected, the amounts of
    another cannot be formatted: three allowance reads. *)
Lemma scan_calls_accounted_witness :
  length (filter (λ c, is_allowance_call c = true)
            (calls_of (failingWorld
                         (mkRequestBody (JString sampleOwner) JNull))))
  = 3%nat.
Proof.
  unfold failingWorld.
  refine (proj1 (proj2 (proj2
    (scan_calls_accounted _ _ _ _ _ _ _ _ _ _ _ _
       (mkRequestBody (JString sampleOwner) JNull) sampleOwner
       "0x00000000000000000000000000000000000000000000000000000000000000f1"
       failingLogs _ _ _ _)))); reflexivity.
Defined.

(** In that chain the pair (B, C) costs an explorer request and is not
    listed. *)
Example failingWorld_run :
  calls_of (failingWorld (mkRequestBody (JString sampleOwner) JNull))
  = [ RpcGetLogs
        "0x00000000000000000000000000000000000000000000000000000000000000f1";
      RpcAllowance addressA sampleOwner addressB;
      RpcName addressA; RpcSymbol addressA; RpcDecimals addressA;
      RpcBalanceOf addressA sampleOwner; HttpGetSourceCode addressB;
      RpcAllowance addressC sampleOwner addressB;
      RpcName addressC; RpcSymbol addressC; RpcDecimals addressC;
      RpcBalanceOf addressC sampleOwner;
      RpcAllowance addressB sampleOwner addressC;
      RpcName addressB; RpcSymbol addressB; RpcDecimals addressB;
      RpcBalanceOf addressB sampleOwner; HttpGetSourceCode addressC ]
  ∧ ∃ approvals,
      value_of (failingWorld (mkRequestBody (JString sampleOwner) JNull))
        = Status200 1 approvals
      ∧ shownPair <$> approvals = [pairText (mkApproval addressA addressB)].
Proof. split; [reflexivity |]. eexists. split; reflexivity. Qed.

(** ** More on the page *)

Lemma length_append (s t : string) :
  String.length (s +:+ t) = (String.length s + String.length t)%nat.
Proof.
  induction s as [| c s IH]; [done |]. rewrite append_cons. cbn. by rewrite IH.
Qed.

Lemma length_slice (n : nat) (s : string) :
  String.length (slice n s) = (String.length s - n)%nat.
Proof.
  revert s. induction n as [| n IH]; intros s; cbn; [lia |].
  destruct s; cbn; [done | apply IH].
Qed.

Lemma length_padStart (n : nat) (c : ascii) (s : string) :
  String.length (padStart n c s) = Nat.max n (String.length s).
Proof. unfold padStart. rewrite length_append, length_repeat_char. lia. Qed.

(** X16.  The revoke button and the function behind it agree: for the same
    connected wallet and scanned address the button is enabled exactly when
    [revokeApproval] hands a transaction to the wallet. *)
Theorem revoke_button_matches_guard
    (connectedAddress : option string)
    (ethereum_request : Transaction → string + string)
    (tokenAddress spenderAddress address : string) :
  revokeButtonDisabled connectedAddress address = false
  ↔ is_Some (request (revokeApproval connectedAddress ethereum_request
                        tokenAddress spenderAddress address)).
Proof.
  unfold revokeButtonDisabled, revokeApproval.
  destruct connectedAddress as [[| c s] |].
  - cbn. split; [done | by intros [? ?]].
  - destruct (String.eqb (toLowerCase (String c s)) (toLowerCase address));
      cbn; split; try done; by intros [? ?].
  - cbn. split; [done | by intros [? ?]].
Qed.

(** X17.  The calldata has 138 characters (the prefix 0x and 68 bytes)
    exactly when the spender text has at most 66 characters: a longer text
    is not cut, and every further character makes the calldata one
    character longer. *)
Theorem revokeData_length (spenderAddress : string) :
  String.length (revokeData spenderAddress)
  = (74 + Nat.max 64 (String.length spenderAddress - 2))%nat
  ∧ (String.length (revokeData spenderAddress) = 138%nat
     ↔ (String.length spenderAddress ≤ 66)%nat).
Proof.
  assert (E : String.length (revokeData spenderAddress)
              = (74 + Nat.max 64 (String.length spenderAddress - 2))%nat).
  { unfold revokeData.
    rewrite !length_append, !length_padStart, length_slice. cbn. lia. }
  split; [exact E |]. rewrite E. lia.
Qed.
